(** * Loro collaboration hub: server [Document] and client [LoroProvider]

    A shallow embedding of
    - [packages/server/src/Document.ts] (the Loro part of the server
      document: update storage, replica import/export, broadcast fan-out,
      connection bookkeeping),
    - [packages/provider/src/LoroProvider.ts] (the client provider:
      construction, force-sync timer, outbound sync request, inbound
      dispatch, attach/detach/destroy),
    - [packages/provider/src/OutgoingMessages/*.ts] (the three Loro frames),
    together with the properties of the hub's specification that concern
    them.

    Conventions.
    - A [Uint8Array] is a [list byte]; a JavaScript string is a Rocq
      [string], read as its UTF-8 bytes.
    - Methods that mutate [this] or call into the outside world are programs
      of the monad [Prog]: explicit state passing with JavaScript exceptions
      ([throw], [try]/[catch]).  Calls that leave the modelled class
      ([conn.send], [console.error], [doc.import], [setInterval], ...) are
      recorded, in order, in an effect log.
    - Objects compared with [===] carry their identity in the model. *)

From Stdlib Require Import List NArith ZArith Lia Bool String.
From Stdlib Require Import Strings.Byte.
From Stdlib Require QArith_base.
From Equations Require Import Equations.
Import ListNotations.
Open Scope list_scope.

Set Implicit Arguments.

Definition bytes := list byte.

(* ===================================================================== *)
(** * Programs: state, exceptions, effect log                            *)
(* ===================================================================== *)

Module Js.

(** The exceptions that occur in the modelled code. *)
Inductive Exn :=
| UnexpectedEndOfArray            (* decoder ran past the end of the frame *)
| ForeignError (msg : string)     (* thrown by an external object *)
| TypeError.                      (* a property read on [undefined] or [null] *)

(** How a statement or call completes. *)
Inductive Completion (A : Type) :=
| Normal (a : A)
| Throw (e : Exn).
Arguments Normal {A} a.
Arguments Throw {A} e.

Definition Prog (S A : Type) := S -> Completion A * S.

Section Combinators.
Context {S : Type}.

Definition ret {A} (a : A) : Prog S A := fun s => (Normal a, s).

Definition bind {A B} (m : Prog S A) (k : A -> Prog S B) : Prog S B :=
  fun s =>
    match m s with
    | (Normal a, s') => k a s'
    | (Throw e, s') => (Throw e, s')
    end.

Definition throw {A} (e : Exn) : Prog S A := fun s => (Throw e, s).

(** [try { body } catch (e) { handler e }] *)
Definition tryCatch {A} (body : Prog S A) (handler : Exn -> Prog S A) : Prog S A :=
  fun s =>
    match body s with
    | (Normal a, s') => (Normal a, s')
    | (Throw e, s') => handler e s'
    end.

Definition get : Prog S S := fun s => (Normal s, s).
Definition modify (f : S -> S) : Prog S unit := fun s => (Normal tt, f s).

(** [if (c) { body }] without an else branch. *)
Definition when (c : bool) (body : Prog S unit) : Prog S unit :=
  if c then body else ret tt.

(** [array.forEach(f)]: the callback runs on each element in order; an
    exception leaving the callback ends the iteration. *)
Fixpoint forEach {A} (l : list A) (f : A -> Prog S unit) : Prog S unit :=
  match l with
  | [] => ret tt
  | x :: rest => bind (f x) (fun _ => forEach rest f)
  end.

(** [n] successive calls of one method. *)
Fixpoint repeatedly (n : nat) (m : Prog S unit) : Prog S unit :=
  match n with
  | O => ret tt
  | Datatypes.S k => bind m (fun _ => repeatedly k m)
  end.

(** A call whose caller catches and drops what it throws:
    [try { m } catch (_) {}]. *)
Definition caught (m : Prog S unit) : Prog S unit :=
  tryCatch m (fun _ => ret tt).

(** [m] relates every state it starts from to the state it leaves,
    however it completes. *)
Definition preserves {A} (I : S -> S -> Prop) (m : Prog S A) : Prop :=
  forall s, I s (snd (m s)).

End Combinators.

(** A JavaScript [number]: a finite double, an infinity or [NaN].  Every
    finite double is a rational number; the two zeros are not told apart
    (both are falsy). *)
Inductive Number :=
| Finite (q : QArith_base.Q)
| Infinity (negative : bool)
| NaN.

(** The number written as the integer literal [z]. *)
Definition integer (z : Z) : Number := Finite (QArith_base.Qmake z 1).

(** JavaScript truthiness of the values that the code tests: the empty
    string is falsy; of the numbers, the zeros and [NaN] are. *)
Definition truthy_string (s : string) : bool :=
  match s with EmptyString => false | _ => true end.
Definition truthy_number (n : Number) : bool :=
  match n with
  | Finite q => negb (QArith_base.Qnum q =? 0)%Z
  | Infinity _ => true
  | NaN => false
  end.

(** [n > 0] *)
Definition positive_number (n : Number) : bool :=
  match n with
  | Finite q => (0 <? QArith_base.Qnum q)%Z
  | Infinity negative => negb negative
  | NaN => false
  end.

(** Truthiness of the values of a type that the code leaves as [any]. *)
Class Truthy (A : Type) := truthy : A -> bool.

End Js.

Import Js.

Declare Scope prog_scope.
Delimit Scope prog_scope with prog.
Notation "x <- c1 ;; c2" := (bind c1 (fun x => c2))
  (at level 61, c1 at next level, right associativity) : prog_scope.
Notation "c1 ;; c2" := (bind c1 (fun _ => c2))
  (at level 61, right associativity) : prog_scope.
Open Scope prog_scope.

(* ===================================================================== *)
(** * Message type tags                                                   *)
(* ===================================================================== *)

(** [MessageType] ([types.ts]) is a numeric enum.  The Loro code refers to
    five of its members by name; their numeric values are fixed by the enum
    declaration and enter the model as a table. *)
Module MessageType.

Class Table := {
  Auth : N;
  LoroUpdate : N;
  LoroSyncRequest : N;
  LoroSyncBatch : N;
  LoroEphemeral : N }.

(** The message kinds that the protocol knows. *)
Definition known `{Table} (type : N) : bool :=
  ((type =? Auth) || (type =? LoroUpdate) || (type =? LoroSyncRequest)
   || (type =? LoroSyncBatch) || (type =? LoroEphemeral))%N.

End MessageType.

(* ===================================================================== *)
(** * Codec                                                               *)
(* ===================================================================== *)

(** The variable-length codec of the wire format.  The Loro files call it
    through [encoding.writeVarUint], [encoding.writeVarString],
    [encoding.writeVarUint8Array] and the readers of [IncomingMessage]; none
    of these is defined in them.  An encoder is the sequence of bytes
    written so far; a decoder is the unread rest of the frame. *)
Module Codec.

Definition byte_of_N (n : N) : byte :=
  match Byte.of_N n with Some b => b | None => x00 end.

Definition inspect {A} (a : A) : {b | a = b} := exist _ a eq_refl.

(** Modelled from the spec: [encoding.writeVarUint], which the sources call
    but do not define.  Section 4.1/6.1: a [varuint] is LEB128 unsigned, 7
    bits per byte, least significant group first, the most significant bit
    of a byte marking continuation. *)
Equations? writeVarUint (num : N) : bytes by wf (N.to_nat num) lt :=
  writeVarUint num with inspect (127 <? num)%N => {
    | exist _ true _ :=
        byte_of_N (N.lor 128 (N.land 127 num)) :: writeVarUint (num / 128)%N;
    | exist _ false _ := [byte_of_N (N.land 127 num)] }.
Proof.
  apply N.ltb_lt in e.
  assert (num / 128 < num)%N by (apply N.div_lt; lia). lia.
Qed.

(** Modelled from the spec: [encoding.writeVarUint8Array], not defined in
    the sources.  Section 6.1: [varbytes] is [varuint(byteLen) bytes(raw)]. *)
Definition writeVarUint8Array (b : bytes) : bytes :=
  writeVarUint (N.of_nat (List.length b)) ++ b.

(** Modelled from the spec: [encoding.writeVarString], not defined in the
    sources.  Section 6.1: [varstring] is [varuint(byteLen) bytes(utf8)]. *)
Definition writeVarString (s : string) : bytes :=
  writeVarUint8Array (list_byte_of_string s).

(** Modelled from the spec: the loop of [readVarUint], the inverse of the
    LEB128 encoding; Section 4.1: reading past the end is a decode error. *)
Fixpoint readVarUint_from (arr : bytes) (num mult : N) : option (N * bytes) :=
  match arr with
  | [] => None
  | r :: rest =>
      let num' := (num + N.land (Byte.to_N r) 127 * mult)%N in
      if (Byte.to_N r <? 128)%N then Some (num', rest)
      else readVarUint_from rest num' (mult * 128)%N
  end.

(** Modelled from the spec: [IncomingMessage.readVarUint], whose source is
    not among the files. *)
Definition readVarUint (arr : bytes) : option (N * bytes) :=
  readVarUint_from arr 0%N 1%N.

(** Modelled from the spec: reading [len] raw bytes; past the end of the
    frame this is a decode error (Section 4.1). *)
Definition readUint8Array (arr : bytes) (len : N) : option (bytes * bytes) :=
  if (len <=? N.of_nat (List.length arr))%N
  then Some (firstn (N.to_nat len) arr, skipn (N.to_nat len) arr)
  else None.

(** Modelled from the spec: [IncomingMessage.readVarUint8Array], whose
    source is not among the files; a length, then that many bytes. *)
Definition readVarUint8Array (arr : bytes) : option (bytes * bytes) :=
  match readVarUint arr with
  | Some (len, rest) => readUint8Array rest len
  | None => None
  end.

(** Modelled from the spec: [IncomingMessage.readVarString], whose source is
    not among the files. *)
Definition readVarString (arr : bytes) : option (string * bytes) :=
  match readVarUint8Array arr with
  | Some (b, rest) => Some (string_of_list_byte b, rest)
  | None => None
  end.

(** A read inside a method: a failed read throws out of the method. *)
Definition reading {S A B} (read : bytes -> option (A * bytes)) (decoder : bytes)
    (k : A -> bytes -> Prog S B) : Prog S B :=
  match read decoder with
  | Some (a, rest) => k a rest
  | None => throw UnexpectedEndOfArray
  end.

End Codec.

(* ===================================================================== *)
(** * JavaScript [Map]                                                    *)
(* ===================================================================== *)

(** A [Map] keeps its entries in insertion order; [set] on a key that is
    present replaces the value in place, [delete] removes the entry.  Keys
    are object identities. *)
Module JsMap.

Section Ops.
Context {V : Type}.

Definition t := list (nat * V).

Definition empty : t := [].

Fixpoint set (m : t) (k : nat) (v : V) : t :=
  match m with
  | [] => [(k, v)]
  | (k', v') :: rest =>
      if Nat.eqb k' k then (k, v) :: rest else (k', v') :: set rest k v
  end.

Definition delete (m : t) (k : nat) : t :=
  filter (fun e => negb (Nat.eqb (fst e) k)) m.

Fixpoint get (m : t) (k : nat) : option V :=
  match m with
  | [] => None
  | (k', v') :: rest => if Nat.eqb k' k then Some v' else get rest k
  end.

Definition has (m : t) (k : nat) : bool :=
  match get m k with Some _ => true | None => false end.

Definition keys (m : t) : list nat := map fst m.
Definition values (m : t) : list V := map snd m.
Definition size (m : t) : Z := Z.of_nat (List.length m).

End Ops.
Arguments t V : clear implicits.

End JsMap.

(* ===================================================================== *)
(** * Server: [Document]                                                  *)
(* ===================================================================== *)

Module Document.

(** ** The CRDT engine, as the document uses it *)

(** [loroDoc.export(...)] yields one update or an array of updates. *)
Inductive ExportOutput :=
| OneUpdate (update : bytes)          (* [instanceof Uint8Array] *)
| UpdateArray (updates : list bytes).

(** The replica [loroDoc: any] with the two methods the document calls.
    Both may change the replica and both may throw.  [VV] is the type of the
    values that callers pass as [versionVector?: any]. *)
Class LoroDocLike (R VV : Type) := {
  import : bytes -> Prog R unit;
  export : option VV -> Prog R ExportOutput }.

(** ** Connections *)

Definition WebSocket := nat.

(** A [Connection] object: its identity and its [webSocket] field. *)
Record Connection := {
  connId : nat;
  webSocket : WebSocket }.

(** [a === b].  The record stands for the object: [webSocket] is assigned
    once, by the constructor of [Connection]. *)
Definition Connection_eqb (a b : Connection) : bool :=
  Nat.eqb (connId a) (connId b) && Nat.eqb (webSocket a) (webSocket b).

Record ConnectionData := {
  clients : list nat;
  connection : Connection }.

(** ** State *)

Section WithEngine.
Context {R VV : Type} `{LoroDocLike R VV} `{Truthy VV} `{MessageType.Table}.

(** The fields of the class that the Loro code reads or writes.  The Yjs
    side ([awareness], the inherited [Doc], [saveMutex]) is left out.
    [loroDoc: any | null] is [None] when it holds [null] or another falsy
    value: the code tests the field for truthiness and nothing else. *)
Record Document := {
  name : string;
  loroUpdates : list bytes;
  loroDoc : option R;
  connections : JsMap.t ConnectionData;
  directConnectionsCount : Z;
  isLoading : bool;
  isDestroyed : bool;
  lastChangeTime : Z }.

(** Calls that leave the document. *)
Inductive Effect :=
| Send (conn : Connection) (frame : bytes)               (* [conn.send(frame)] *)
| ConsoleError (msg : string)                            (* [console.error] *)
| OnLoroUpdate (origin : option Connection) (update : bytes)
                                                         (* [callbacks.onLoroUpdate] *)
| RemoveAwarenessStates (clientIds : list nat).

Record Heap := {
  this : Document;
  effects : list Effect }.

Definition M := Prog Heap.

Definition perform (e : Effect) : M unit :=
  modify (fun h => {| this := this h; effects := effects h ++ [e] |}).

Definition update_this (f : Document -> Document) : M unit :=
  modify (fun h => {| this := f (this h); effects := effects h |}).

Definition read_this {A} (f : Document -> A) : M A :=
  fun h => (Normal (f (this h)), h).

Definition set_loroUpdates (l : list bytes) (d : Document) : Document :=
  {| name := name d; loroUpdates := l; loroDoc := loroDoc d;
     connections := connections d;
     directConnectionsCount := directConnectionsCount d;
     isLoading := isLoading d; isDestroyed := isDestroyed d;
     lastChangeTime := lastChangeTime d |}.

Definition set_loroDoc (r : option R) (d : Document) : Document :=
  {| name := name d; loroUpdates := loroUpdates d; loroDoc := r;
     connections := connections d;
     directConnectionsCount := directConnectionsCount d;
     isLoading := isLoading d; isDestroyed := isDestroyed d;
     lastChangeTime := lastChangeTime d |}.

Definition set_connections (c : JsMap.t ConnectionData) (d : Document) : Document :=
  {| name := name d; loroUpdates := loroUpdates d; loroDoc := loroDoc d;
     connections := c;
     directConnectionsCount := directConnectionsCount d;
     isLoading := isLoading d; isDestroyed := isDestroyed d;
     lastChangeTime := lastChangeTime d |}.

Definition set_directConnectionsCount (n : Z) (d : Document) : Document :=
  {| name := name d; loroUpdates := loroUpdates d; loroDoc := loroDoc d;
     connections := connections d;
     directConnectionsCount := n;
     isLoading := isLoading d; isDestroyed := isDestroyed d;
     lastChangeTime := lastChangeTime d |}.

Definition set_isDestroyed (b : bool) (d : Document) : Document :=
  {| name := name d; loroUpdates := loroUpdates d; loroDoc := loroDoc d;
     connections := connections d;
     directConnectionsCount := directConnectionsCount d;
     isLoading := isLoading d; isDestroyed := b;
     lastChangeTime := lastChangeTime d |}.

(** A method call on [this.loroDoc].  On [null] the call is a [TypeError]. *)
Definition on_loroDoc {A} (call : Prog R A) : M A :=
  fun h =>
    match loroDoc (this h) with
    | Some r =>
        let (c, r') := call r in
        (c, {| this := set_loroDoc (Some r') (this h); effects := effects h |})
    | None => (Throw TypeError, h)
    end.

(** ** Frames written by the server *)

(** Modelled from the spec: [new OutgoingMessage(name).writeLoroUpdate(update)
    .toUint8Array()] of the server's [OutgoingMessage.ts], which is not among
    the sources.  Section 6.1: [frame := varstring(documentName)
    varuint(type) payload], payload of [LoroUpdate] is [varbytes(update)]. *)
Definition writeLoroUpdate (documentName : string) (update : bytes) : bytes :=
  Codec.writeVarString documentName
  ++ Codec.writeVarUint MessageType.LoroUpdate
  ++ Codec.writeVarUint8Array update.

(** Modelled from the spec: [new OutgoingMessage(name)
    .writeLoroEphemeral(update).toUint8Array()], likewise; payload of
    [LoroEphemeral] is [varbytes(delta)]. *)
Definition writeLoroEphemeral (documentName : string) (update : bytes) : bytes :=
  Codec.writeVarString documentName
  ++ Codec.writeVarUint MessageType.LoroEphemeral
  ++ Codec.writeVarUint8Array update.

(** ** Methods *)

(** [constructor(name)] with the field initialisers. *)
Definition new_Document (documentName : string) : Document :=
  {| name := documentName; loroUpdates := []; loroDoc := None;
     connections := JsMap.empty; directConnectionsCount := 0;
     isLoading := true; isDestroyed := false; lastChangeTime := 0 |}.

Definition setLoroDoc (loroDoc' : option R) : M unit :=
  update_this (set_loroDoc loroDoc') ;;
  updates <- read_this loroUpdates ;;
  when (match loroDoc' with Some _ => true | None => false end
        && (0 <? Z.of_nat (List.length updates))%Z)
    (forEach updates (fun update =>
       tryCatch (on_loroDoc (import update)) (fun _ => ret tt))).

Definition addConnection (conn : Connection) : M unit :=
  update_this (fun d =>
    set_connections
      (JsMap.set (connections d) (webSocket conn)
                 {| clients := []; connection := conn |}) d).

Definition hasConnection (conn : Connection) : M bool :=
  read_this (fun d => JsMap.has (connections d) (webSocket conn)).

Definition getClients (connectionInstance : WebSocket) : M (list nat) :=
  read_this (fun d =>
    match JsMap.get (connections d) connectionInstance with
    | Some data => clients data
    | None => []
    end).

Definition removeConnection (conn : Connection) : M unit :=
  clientIds <- getClients (webSocket conn) ;;
  perform (RemoveAwarenessStates clientIds) ;;
  update_this (fun d =>
    set_connections (JsMap.delete (connections d) (webSocket conn)) d).

Definition addDirectConnection : M unit :=
  update_this (fun d =>
    set_directConnectionsCount (directConnectionsCount d + 1) d).

Definition removeDirectConnection : M unit :=
  n <- read_this directConnectionsCount ;;
  when (0 <? n)%Z
    (update_this (fun d =>
       set_directConnectionsCount (directConnectionsCount d - 1) d)).

Definition getConnectionsCount : M Z :=
  read_this (fun d => (JsMap.size (connections d) + directConnectionsCount d)%Z).

(** [Array.from(this.connections.values()).map((data) => data.connection)] *)
Definition connection_list (d : Document) : list Connection :=
  map connection (JsMap.values (connections d)).

Definition getConnections : M (list Connection) :=
  read_this connection_list.

(** The test [origin && conn === origin] of the two broadcast loops. *)
Definition is_origin (origin : option Connection) (conn : Connection) : bool :=
  match origin with
  | Some o => Connection_eqb conn o
  | None => false
  end.

Definition handleLoroUpdate (update : bytes) (origin : option Connection) : M unit :=
  update_this (fun d => set_loroUpdates (loroUpdates d ++ [update]) d) ;;
  replica <- read_this loroDoc ;;
  when (match replica with Some _ => true | None => false end)
    (tryCatch (on_loroDoc (import update))
       (fun _ => perform (ConsoleError "Failed to import Loro update:"))) ;;
  documentName <- read_this name ;;
  let message := writeLoroUpdate documentName update in
  conns <- getConnections ;;
  forEach conns (fun conn =>
    if is_origin origin conn then ret tt
    else perform (Send conn message)) ;;
  perform (OnLoroUpdate origin update).

(** [update instanceof Uint8Array ? [update] : update] *)
Definition as_array (update : ExportOutput) : list bytes :=
  match update with
  | OneUpdate u => [u]
  | UpdateArray us => us
  end.

(** Each of the two guarded blocks either returns from the method
    ([Some result]) or falls through to the code after it ([None]).  The
    first guard [this.loroDoc && versionVector] asks for a truthy argument:
    an absent one is [undefined], a given one counts by its truthiness. *)
Definition exportLoroUpdates (versionVector : option VV) : M (list bytes) :=
  replica <- read_this loroDoc ;;
  first <-
    match replica, versionVector with
    | Some _, Some vv =>
        if truthy vv then
          tryCatch
            (update <- on_loroDoc (export (Some vv)) ;;
             ret (Some (as_array update)))
            (fun _ =>
               perform (ConsoleError
                 "Failed to export Loro updates with version vector:") ;;
               ret None)
        else ret None
    | _, _ => ret None
    end ;;
  match first with
  | Some result => ret result
  | None =>
      replica <- read_this loroDoc ;;
      second <-
        match replica with
        | Some _ =>
            tryCatch
              (update <- on_loroDoc (export None) ;;
               ret (Some (as_array update)))
              (fun _ =>
                 perform (ConsoleError "Failed to export Loro updates:") ;;
                 ret None)
        | None => ret None
        end ;;
      match second with
      | Some result => ret result
      | None => read_this loroUpdates
      end
  end.

Definition broadcastLoroEphemeral (update : bytes) (origin : option Connection) : M unit :=
  documentName <- read_this name ;;
  let message := writeLoroEphemeral documentName update in
  conns <- getConnections ;;
  forEach conns (fun conn =>
    if is_origin origin conn then ret tt
    else perform (Send conn message)).

Definition destroy : M unit :=
  update_this (set_isDestroyed true).

(** ** What a run leaves behind *)

(** The effects that running [m] on [h] adds to the log. *)
Definition emitted {A} (m : M A) (h : Heap) : list Effect :=
  skipn (List.length (effects h)) (effects (snd (m h))).

(** The frames handed to [conn.send], in order. *)
Definition sends (l : list Effect) : list (Connection * bytes) :=
  flat_map (fun e => match e with Send c f => [(c, f)] | _ => [] end) l.

(** The method calls a client of the class can make. *)
Inductive Call :=
| CallSetLoroDoc (r : option R)
| CallAddConnection (conn : Connection)
| CallRemoveConnection (conn : Connection)
| CallAddDirectConnection
| CallRemoveDirectConnection
| CallHandleLoroUpdate (update : bytes) (origin : option Connection)
| CallExportLoroUpdates (versionVector : option VV)
| CallBroadcastLoroEphemeral (update : bytes) (origin : option Connection)
| CallDestroy.

Definition discard {A} (m : M A) : M unit := m ;; ret tt.

Definition call (c : Call) : M unit :=
  match c with
  | CallSetLoroDoc r => setLoroDoc r
  | CallAddConnection conn => addConnection conn
  | CallRemoveConnection conn => removeConnection conn
  | CallAddDirectConnection => addDirectConnection
  | CallRemoveDirectConnection => removeDirectConnection
  | CallHandleLoroUpdate u o => handleLoroUpdate u o
  | CallExportLoroUpdates vv => discard (exportLoroUpdates vv)
  | CallBroadcastLoroEphemeral u o => broadcastLoroEphemeral u o
  | CallDestroy => destroy
  end.

(** The heap after [new Document(name)] and a sequence of calls.  A call
    that throws leaves the heap as it was at the throw. *)
Fixpoint after (cs : list Call) (h : Heap) : Heap :=
  match cs with
  | [] => h
  | c :: rest => after rest (snd (call c h))
  end.

Definition fresh (documentName : string) : Heap :=
  {| this := new_Document documentName; effects := [] |}.

(** Two heaps that agree on the connection bookkeeping. *)
Definition same_connections (h h' : Heap) : Prop :=
  connections (this h') = connections (this h)
  /\ directConnectionsCount (this h') = directConnectionsCount (this h).

(** The connection map as [addConnection] builds it: every entry sits under
    the web socket of its connection, and no key occurs twice. *)
Definition connections_wf (d : Document) : Prop :=
  NoDup (JsMap.keys (connections d))
  /\ Forall (fun e => fst e = webSocket (connection (snd e))) (connections d).

(** ** Histories *)

(** The replica after [import] was called on [updates] in order, each call
    left to complete as it does. *)
Definition replay (updates : list bytes) (r : R) : R :=
  fold_left (fun r update => snd (import update r)) updates r.

(** The updates that a sequence of calls hands to [handleLoroUpdate], in
    order. *)
Definition handled (cs : list Call) : list bytes :=
  flat_map (fun c =>
    match c with CallHandleLoroUpdate update _ => [update] | _ => [] end) cs.

(** No call of the sequence installs a replica. *)
Definition installs_no_replica (cs : list Call) : bool :=
  forallb (fun c =>
    match c with CallSetLoroDoc (Some _) => false | _ => true end) cs.

(** Two heaps with the same stored updates. *)
Definition same_updates (h h' : Heap) : Prop :=
  loroUpdates (this h') = loroUpdates (this h).

End WithEngine.

Arguments Document R : clear implicits.
Arguments Heap R : clear implicits.
Arguments M R : clear implicits.
Arguments Call R VV : clear implicits.

End Document.

(* ===================================================================== *)
(** * Client: [LoroProvider]                                              *)
(* ===================================================================== *)

Module LoroProvider.

(** ** The objects the provider is given *)

(** [forceSyncInterval: false | number] (milliseconds); the key of a
    partial configuration may also hold [undefined]. *)
Inductive ForceSyncInterval :=
| FsUndefined
| FsFalse
| FsNumber (ms : Number).

(** The two subscriptions a provider may hold. *)
Inductive Subscription := OnDoc | OnEphemeral.

(** Calls that leave the provider, and events it emits to its listeners. *)
Inductive Event :=
| Emit (event : string)                 (* [this.emit(event, ...)] *)
| WsSend (frame : bytes)                (* [messageSender.send(websocketProvider)] *)
| NewWebsocket                          (* [new HocuspocusProviderWebsocket] *)
| Subscribe (s : Subscription)          (* [subscribeLocalUpdates(cb)] *)
| Unsubscribe (s : Subscription)        (* the function it returned is called *)
| DocImport (update : bytes)            (* [doc.import(update)] *)
| EphemeralApply (update : bytes)       (* [ephemeralStore.apply(update)] *)
| ReadAuthMessage (decoder : bytes)     (* [readAuthMessage(decoder, ...)] *)
| SetInterval (id : positive) (ms : Number)
| ClearInterval (id : positive)
| WsOn (event : string)
| WsOff (event : string)
| WsAttach
| WsDetach.

(** An unsubscribe function; calling it may throw. *)
Record UnsubscribeFn := {
  unsubscribe_throws : bool }.

(** The Loro document [doc] as the provider probes it: each method may be
    missing; a present method is given by how a call completes, which may
    depend on everything that happened before. *)
Record LoroDoc := {
  doc_subscribeLocalUpdates : option (option UnsubscribeFn);
     (* what the call returns: a function, or something else *)
  doc_import : option (list Event -> bytes -> Completion unit);
  doc_oplogVersion : option (list Event -> Completion string)
     (* [JSON.stringify(doc.oplogVersion())] *) }.

Record EphemeralStore := {
  store_subscribeLocalUpdates : option (option UnsubscribeFn);
  store_apply : option (list Event -> bytes -> Completion unit) }.

Inductive Websocket :=
| SharedWebsocket (id : nat)            (* passed in by the caller *)
| OwnWebsocket.                         (* created by [setConfiguration] *)

(** [CompleteLoroProviderConfiguration].  The listener callbacks ([onOpen],
    ...) are the receivers of [Emit]; [token] belongs to the asynchronous
    open handshake, which is not modelled. *)
Record Configuration := {
  name : string;
  doc : option LoroDoc;
  ephemeralStore : option EphemeralStore;
  websocketProvider : option Websocket;
  forceSyncInterval : ForceSyncInterval }.

(** A key of an object literal: absent, or present with a value.  A key
    that is present with [undefined] is present. *)
Inductive Key (A : Type) :=
| Absent
| Present (value : A).
Arguments Absent {A}.
Arguments Present {A} value.

(** [LoroProviderConfiguration]: every key but [name] may be absent.  In
    the three object-valued keys [None] is [undefined] or [null]. *)
Record PartialConfiguration := {
  given_name : string;
  given_doc : Key (option LoroDoc);
  given_ephemeralStore : Key (option EphemeralStore);
  given_websocketProvider : Key (option Websocket);
  given_forceSyncInterval : Key ForceSyncInterval }.

(** ** State *)

Record LoroProvider := {
  configuration : Configuration;
  manageSocket : bool;
  _isAttached : bool;
  unsubDoc : option UnsubscribeFn;
  unsubEphemeral : option UnsubscribeFn;
  intervals_forceSync : option positive }.

(** The provider together with the timers of the JavaScript runtime: the
    active intervals whose callback is [forceSync] bound to this provider
    (identifier and period) and the identifier that [setInterval] hands out
    next.  Intervals of other objects are not in the table. *)
Record Heap := {
  this : LoroProvider;
  events : list Event;
  timers : list (positive * Number);
  nextTimer : positive }.

Definition M := Prog Heap.

Definition perform (e : Event) : M unit :=
  modify (fun h =>
    {| this := this h; events := events h ++ [e];
       timers := timers h; nextTimer := nextTimer h |}).

Definition update_this (f : LoroProvider -> LoroProvider) : M unit :=
  modify (fun h =>
    {| this := f (this h); events := events h;
       timers := timers h; nextTimer := nextTimer h |}).

Definition read_this {A} (f : LoroProvider -> A) : M A :=
  fun h => (Normal (f (this h)), h).

Definition set_configuration (c : Configuration) (p : LoroProvider) :=
  {| configuration := c; manageSocket := manageSocket p;
     _isAttached := _isAttached p; unsubDoc := unsubDoc p;
     unsubEphemeral := unsubEphemeral p;
     intervals_forceSync := intervals_forceSync p |}.

Definition set_manageSocket (b : bool) (p : LoroProvider) :=
  {| configuration := configuration p; manageSocket := b;
     _isAttached := _isAttached p; unsubDoc := unsubDoc p;
     unsubEphemeral := unsubEphemeral p;
     intervals_forceSync := intervals_forceSync p |}.

Definition set_isAttached (b : bool) (p : LoroProvider) :=
  {| configuration := configuration p; manageSocket := manageSocket p;
     _isAttached := b; unsubDoc := unsubDoc p;
     unsubEphemeral := unsubEphemeral p;
     intervals_forceSync := intervals_forceSync p |}.

Definition set_unsubDoc (f : option UnsubscribeFn) (p : LoroProvider) :=
  {| configuration := configuration p; manageSocket := manageSocket p;
     _isAttached := _isAttached p; unsubDoc := f;
     unsubEphemeral := unsubEphemeral p;
     intervals_forceSync := intervals_forceSync p |}.

Definition set_unsubEphemeral (f : option UnsubscribeFn) (p : LoroProvider) :=
  {| configuration := configuration p; manageSocket := manageSocket p;
     _isAttached := _isAttached p; unsubDoc := unsubDoc p;
     unsubEphemeral := f;
     intervals_forceSync := intervals_forceSync p |}.

Definition set_intervals_forceSync (id : option positive) (p : LoroProvider) :=
  {| configuration := configuration p; manageSocket := manageSocket p;
     _isAttached := _isAttached p; unsubDoc := unsubDoc p;
     unsubEphemeral := unsubEphemeral p;
     intervals_forceSync := id |}.

(** The heap [h] with the events [l] added to its log. *)
Definition logged (l : list Event) (h : Heap) : Heap :=
  {| this := this h; events := events h ++ l;
     timers := timers h; nextTimer := nextTimer h |}.

(** ** The runtime's timers *)

Definition setInterval (ms : Number) : M positive :=
  fun h =>
    let id := nextTimer h in
    (Normal id,
     {| this := this h; events := events h ++ [SetInterval id ms];
        timers := timers h ++ [(id, ms)]; nextTimer := Pos.succ id |}).

Definition clearInterval (id : positive) : M unit :=
  modify (fun h =>
    {| this := this h; events := events h ++ [ClearInterval id];
       timers := filter (fun t => negb (Pos.eqb (fst t) id)) (timers h);
       nextTimer := nextTimer h |}).

(** A call of an external method whose completion depends on the history. *)
Definition foreign {A} (e : Event) (method : list Event -> Completion A) : M A :=
  fun h =>
    (method (events h),
     {| this := this h; events := events h ++ [e];
        timers := timers h; nextTimer := nextTimer h |}).

Section WithTags.
Context `{MessageType.Table}.

(** ** Outgoing messages *)

(** The message classes handed to [send], with their arguments. *)
Inductive OutgoingMessage :=
| LoroUpdateMessage (documentName : string) (update : bytes)
| LoroEphemeralMessage (documentName : string) (update : bytes)
| LoroSyncRequestMessage (documentName : string) (versionJSON : option string).

(** [args.versionJSON || ""] *)
Definition or_empty (versionJSON : option string) : string :=
  match versionJSON with
  | Some s => if truthy_string s then s else EmptyString
  | None => EmptyString
  end.

(** [message.get(args)] followed by [toUint8Array]: the bytes that the three
    [get] methods write to the encoder, in order. *)
Definition toUint8Array (m : OutgoingMessage) : bytes :=
  match m with
  | LoroUpdateMessage documentName update =>
      Codec.writeVarString documentName
      ++ Codec.writeVarUint MessageType.LoroUpdate
      ++ Codec.writeVarUint8Array update
  | LoroEphemeralMessage documentName update =>
      Codec.writeVarString documentName
      ++ Codec.writeVarUint MessageType.LoroEphemeral
      ++ Codec.writeVarUint8Array update
  | LoroSyncRequestMessage documentName versionJSON =>
      Codec.writeVarString documentName
      ++ Codec.writeVarUint MessageType.LoroSyncRequest
      ++ Codec.writeVarString (or_empty versionJSON)
  end.

(** ** Methods *)

(** The field initialisers of the class. *)
Definition initial : LoroProvider :=
  {| configuration :=
       {| name := EmptyString; doc := None; ephemeralStore := None;
          websocketProvider := None;
          forceSyncInterval := FsNumber (integer 15000) |};
     manageSocket := false;
     _isAttached := false;
     unsubDoc := None;
     unsubEphemeral := None;
     intervals_forceSync := None |}.

(** One key of [{ ...current, ...given }]: a key present in [given]
    overrides, whatever its value. *)
Definition spread {A} (given : Key A) (current : A) : A :=
  match given with
  | Present value => value
  | Absent => current
  end.

(** [{ ...this.configuration, ...configuration }] *)
Definition merge (current : Configuration) (given : PartialConfiguration) : Configuration :=
  {| name := given_name given;
     doc := spread (given_doc given) (doc current);
     ephemeralStore := spread (given_ephemeralStore given) (ephemeralStore current);
     websocketProvider :=
       spread (given_websocketProvider given) (websocketProvider current);
     forceSyncInterval :=
       spread (given_forceSyncInterval given) (forceSyncInterval current) |}.

(** [!configuration.websocketProvider]: the key is absent, or holds
    [undefined] or [null]. *)
Definition without_websocketProvider (given : PartialConfiguration) : bool :=
  match given_websocketProvider given with
  | Present (Some _) => false
  | Present None | Absent => true
  end.

Definition setConfiguration (given : PartialConfiguration) : M unit :=
  when (without_websocketProvider given)
    (update_this (set_manageSocket true) ;;
     perform NewWebsocket ;;
     update_this (fun p =>
       let c := configuration p in
       set_configuration
         {| name := name c; doc := doc c; ephemeralStore := ephemeralStore c;
            websocketProvider := Some OwnWebsocket;
            forceSyncInterval := forceSyncInterval c |} p)) ;;
  update_this (fun p => set_configuration (merge (configuration p) given) p).

(** [send(message, args)].  [MessageSender] is not among the sources: its
    [send(websocketProvider)] is recorded as the call [WsSend] with the
    bytes of the message. *)
Definition send (message : OutgoingMessage) : M unit :=
  attached <- read_this _isAttached ;;
  if negb attached then ret tt
  else
    perform (Emit "outgoingMessage") ;;
    perform (WsSend (toUint8Array message)).

Definition startSync : M unit :=
  c <- read_this configuration ;;
  versionJSON <-
    tryCatch
      match doc c with
      | Some d =>
          match doc_oplogVersion d with
          | Some oplogVersion =>
              json <- (fun h => (oplogVersion (events h), h)) ;;
              ret (Some json)
          | None => ret None
          end
      | None => ret None
      end
      (fun _ => ret None) ;;
  send (LoroSyncRequestMessage (name c) versionJSON).

Definition forceSync : M unit := startSync.

(** [this.configuration.websocketProvider], about to be used as the
    receiver of a method call. *)
Definition the_websocketProvider : M Websocket :=
  c <- read_this configuration ;;
  match websocketProvider c with
  | Some w => ret w
  | None => throw TypeError
  end.

Definition attach : M unit :=
  attached <- read_this _isAttached ;;
  if attached then ret tt
  else
    the_websocketProvider ;;
    perform (WsOn "connect") ;;
    perform (WsOn "status") ;;
    perform (WsOn "open") ;;
    perform (WsOn "close") ;;
    perform (WsOn "disconnect") ;;
    perform (WsOn "destroy") ;;
    perform WsAttach ;;
    update_this (set_isAttached true).

Definition detach : M unit :=
  the_websocketProvider ;;
  perform (WsOff "connect") ;;
  perform (WsOff "status") ;;
  perform (WsOff "open") ;;
  perform (WsOff "close") ;;
  perform (WsOff "disconnect") ;;
  perform (WsOff "destroy") ;;
  perform WsDetach ;;
  update_this (set_isAttached false).

(** What [subscribeLocalUpdates] gives back when the method exists. *)
Definition subscribeLocalUpdates (s : Subscription) : option (option UnsubscribeFn) -> M (option UnsubscribeFn) :=
  fun method =>
    match method with
    | Some unsub => perform (Subscribe s) ;; ret unsub
    | None => ret None
    end.

(** [forceSyncInterval && typeof forceSyncInterval === "number"] *)
Definition is_interval (i : ForceSyncInterval) : option Number :=
  match i with
  | FsNumber ms => if truthy_number ms then Some ms else None
  | FsFalse | FsUndefined => None
  end.

(** [this.configuration.doc?.subscribeLocalUpdates] and
    [this.configuration.ephemeralStore?.subscribeLocalUpdates] *)
Definition doc_subscription (d : option LoroDoc) : option (option UnsubscribeFn) :=
  match d with
  | Some d => doc_subscribeLocalUpdates d
  | None => None
  end.

Definition store_subscription (s : option EphemeralStore) : option (option UnsubscribeFn) :=
  match s with
  | Some s => store_subscribeLocalUpdates s
  | None => None
  end.

(** [constructor(configuration)], on the freshly initialised object. *)
Definition new_LoroProvider (given : PartialConfiguration) : M unit :=
  update_this (fun _ => initial) ;;
  setConfiguration given ;;
  c <- read_this configuration ;;
  unsub <- subscribeLocalUpdates OnDoc (doc_subscription (doc c)) ;;
  match unsub with
  | Some f => update_this (set_unsubDoc (Some f))
  | None => ret tt
  end ;;
  unsub <- subscribeLocalUpdates OnEphemeral
             (store_subscription (ephemeralStore c)) ;;
  match unsub with
  | Some f => update_this (set_unsubEphemeral (Some f))
  | None => ret tt
  end ;;
  match is_interval (forceSyncInterval c) with
  | Some ms =>
      id <- setInterval ms ;;
      update_this (set_intervals_forceSync (Some id))
  | None => ret tt
  end ;;
  manage <- read_this manageSocket ;;
  when manage attach.

(** One firing of the interval [id]: its callback runs if the interval is
    still active. *)
Definition tick (id : positive) : M unit :=
  active <- (fun h => (Normal (existsb (fun t => Pos.eqb (fst t) id) (timers h)), h)) ;;
  when active forceSync.

(** [this.configuration.doc?.import?.(update)] *)
Definition doc_import_opt (update : bytes) : M unit :=
  c <- read_this configuration ;;
  match doc c with
  | Some d =>
      match doc_import d with
      | Some import => foreign (DocImport update) (fun past => import past update)
      | None => ret tt
      end
  | None => ret tt
  end.

(** [this.configuration.ephemeralStore?.apply?.(update)] *)
Definition store_apply_opt (update : bytes) : M unit :=
  c <- read_this configuration ;;
  match ephemeralStore c with
  | Some s =>
      match store_apply s with
      | Some apply => foreign (EphemeralApply update) (fun past => apply past update)
      | None => ret tt
      end
  | None => ret tt
  end.

(** [for (let i = 0; i < count; i += 1) { ... }] of the [LoroSyncBatch]
    case. *)
Fixpoint importBatch (count : nat) (decoder : bytes) : M unit :=
  match count with
  | O => ret tt
  | S remaining =>
      Codec.reading Codec.readVarUint8Array decoder (fun update decoder =>
        doc_import_opt update ;;
        importBatch remaining decoder)
  end.

Definition onMessage (data : bytes) : M unit :=
  Codec.reading Codec.readVarString data (fun documentName decoder =>
    perform (Emit "message") ;;
    Codec.reading Codec.readVarUint decoder (fun type decoder =>
      if (type =? MessageType.Auth)%N then
        perform (ReadAuthMessage decoder)
      else if (type =? MessageType.LoroUpdate)%N then
        Codec.reading Codec.readVarUint8Array decoder (fun update _ =>
          doc_import_opt update)
      else if (type =? MessageType.LoroSyncBatch)%N then
        Codec.reading Codec.readVarUint decoder (fun count decoder =>
          importBatch (N.to_nat count) decoder)
      else if (type =? MessageType.LoroEphemeral)%N then
        Codec.reading Codec.readVarUint8Array decoder (fun update _ =>
          store_apply_opt update)
      else
        ret tt)).

(** A call of the stored unsubscribe function. *)
Definition call_unsubscribe (s : Subscription) (f : UnsubscribeFn) : M unit :=
  perform (Unsubscribe s) ;;
  if unsubscribe_throws f then throw (ForeignError "unsubscribe") else ret tt.

Definition destroy : M unit :=
  perform (Emit "destroy") ;;
  timer <- read_this intervals_forceSync ;;
  match timer with
  | Some id => clearInterval id
  | None => ret tt
  end ;;
  unsub <- read_this unsubDoc ;;
  match unsub with
  | Some f =>
      tryCatch (call_unsubscribe OnDoc f) (fun _ => ret tt) ;;
      update_this (set_unsubDoc None)
  | None => ret tt
  end ;;
  unsub <- read_this unsubEphemeral ;;
  match unsub with
  | Some f =>
      tryCatch (call_unsubscribe OnEphemeral f) (fun _ => ret tt) ;;
      update_this (set_unsubEphemeral None)
  | None => ret tt
  end ;;
  detach.

(** ** What a run leaves behind *)

(** The calls that [attach()] and [detach()] make on the web socket. *)
Definition attach_log : list Event :=
  [WsOn "connect"; WsOn "status"; WsOn "open"; WsOn "close";
   WsOn "disconnect"; WsOn "destroy"; WsAttach].

Definition detach_log : list Event :=
  [WsOff "connect"; WsOff "status"; WsOff "open"; WsOff "close";
   WsOff "disconnect"; WsOff "destroy"; WsDetach].

(** Whether [configuration.websocketProvider] holds a web socket. *)
Definition has_websocketProvider (h : Heap) : bool :=
  match websocketProvider (configuration (this h)) with
  | Some _ => true
  | None => false
  end.

(** The heap that [destroy()] leads to from [h], with [l] added to the log:
    the stored interval is cleared, both unsubscribe functions are dropped
    and, when there is a web socket to detach from, the provider is
    detached. *)
Definition destroyed (h : Heap) (l : list Event) : Heap :=
  {| this :=
       (if has_websocketProvider h then set_isAttached false else fun p => p)
         (set_unsubEphemeral None (set_unsubDoc None (this h)));
     events := events h ++ l;
     timers :=
       match intervals_forceSync (this h) with
       | Some id => filter (fun t => negb (Pos.eqb (fst t) id)) (timers h)
       | None => timers h
       end;
     nextTimer := nextTimer h |}.

(** The calls that [destroy()] makes on the provider of [h], in order. *)
Definition destroyed_log (h : Heap) : list Event :=
  [Emit "destroy"]
  ++ match intervals_forceSync (this h) with
     | Some id => [ClearInterval id]
     | None => []
     end
  ++ match unsubDoc (this h) with Some _ => [Unsubscribe OnDoc] | None => [] end
  ++ match unsubEphemeral (this h) with
     | Some _ => [Unsubscribe OnEphemeral]
     | None => []
     end
  ++ (if has_websocketProvider h then detach_log else []).

Definition Subscription_eqb (a b : Subscription) : bool :=
  match a, b with
  | OnDoc, OnDoc | OnEphemeral, OnEphemeral => true
  | _, _ => false
  end.

(** The events that running [m] on [h] adds to the log. *)
Definition emitted {A} (m : M A) (h : Heap) : list Event :=
  skipn (List.length (events h)) (events (snd (m h))).

(** How often the unsubscribe function of [s] was called in a log. *)
Definition unsubscribe_calls (s : Subscription) (l : list Event) : nat :=
  List.length (filter (fun e =>
    match e with Unsubscribe s' => Subscription_eqb s s' | _ => false end) l).

(** The frames handed to the web socket, in order. *)
Definition frames (l : list Event) : list bytes :=
  flat_map (fun e => match e with WsSend f => [f] | _ => [] end) l.

(** The function that [subscribeLocalUpdates] returned, if it exists and
    returned one. *)
Definition returned (method : option (option UnsubscribeFn)) : option UnsubscribeFn :=
  match method with
  | Some (Some f) => Some f
  | _ => None
  end.

(** The configuration that the constructor leaves. *)
Definition constructed_configuration (given : PartialConfiguration) : Configuration :=
  {| name := given_name given;
     doc := spread (given_doc given) None;
     ephemeralStore := spread (given_ephemeralStore given) None;
     websocketProvider := spread (given_websocketProvider given) (Some OwnWebsocket);
     forceSyncInterval :=
       spread (given_forceSyncInterval given) (FsNumber (integer 15000)) |}.

(** The calls that the constructor makes, in order, when [id] is the handle
    that the runtime hands out next: the web socket it creates, the two
    subscriptions, the interval and, on a web socket of its own, the calls
    of [attach()]. *)
Definition constructed_log (given : PartialConfiguration) (id : positive) : list Event :=
  let c := constructed_configuration given in
  (if without_websocketProvider given then [NewWebsocket] else [])
  ++ match doc_subscription (doc c) with Some _ => [Subscribe OnDoc] | None => [] end
  ++ match store_subscription (ephemeralStore c) with
     | Some _ => [Subscribe OnEphemeral]
     | None => []
     end
  ++ match is_interval (forceSyncInterval c) with
     | Some ms => [SetInterval id ms]
     | None => []
     end
  ++ match given_websocketProvider given with
     | Absent => attach_log
     | Present _ => []
     end.

(** The updates passed to [doc.import], in order. *)
Definition imports (l : list Event) : list bytes :=
  flat_map (fun e => match e with DocImport u => [u] | _ => [] end) l.

(** The [setInterval] calls of a log, with the handles they returned, and
    the handles passed to [clearInterval]. *)
Definition intervals_set (l : list Event) : list (positive * Number) :=
  flat_map (fun e => match e with SetInterval id ms => [(id, ms)] | _ => [] end) l.

Definition intervals_cleared (l : list Event) : list positive :=
  flat_map (fun e => match e with ClearInterval id => [id] | _ => [] end) l.

(** Whether the interval [id] is active. *)
Definition active (id : positive) (h : Heap) : bool :=
  existsb (fun t => Pos.eqb (fst t) id) (timers h).

(** The timer and subscription state of a provider: the active intervals of
    the runtime, the stored interval handle, the two stored unsubscribe
    functions and the attachment flag. *)
Record Lifecycle := {
  active_timers : list (positive * Number);
  forceSync_handle : option positive;
  doc_unsubscribe : option UnsubscribeFn;
  ephemeral_unsubscribe : option UnsubscribeFn;
  attached : bool }.

Definition lifecycle (h : Heap) : Lifecycle :=
  {| active_timers := timers h;
     forceSync_handle := intervals_forceSync (this h);
     doc_unsubscribe := unsubDoc (this h);
     ephemeral_unsubscribe := unsubEphemeral (this h);
     attached := _isAttached (this h) |}.

(** ** The callbacks of the two subscriptions *)

(** [(update) => this.send(LoroUpdateMessage, { documentName:
    this.configuration.name, update })], the callback that the constructor
    passes to [doc.subscribeLocalUpdates]. *)
Definition onLocalUpdate (update : bytes) : M unit :=
  c <- read_this configuration ;;
  send (LoroUpdateMessage (name c) update).

(** The callback that the constructor passes to
    [ephemeralStore.subscribeLocalUpdates]. *)
Definition onLocalEphemeralUpdate (update : bytes) : M unit :=
  c <- read_this configuration ;;
  send (LoroEphemeralMessage (name c) update).

(** The updates passed to [ephemeralStore.apply], in order. *)
Definition applies (l : list Event) : list bytes :=
  flat_map (fun e => match e with EphemeralApply u => [u] | _ => [] end) l.

(** ** The playground's factory *)

(** [createLoroProvider(documentId, doc, token, ephemeralStore)] of the
    playground: a new web socket, a provider on it, then [attach()].
    [socket] is the identity of the web socket object that [new] creates;
    [token] is not part of the modelled configuration. *)
Definition createLoroProvider (socket : nat) (documentId : string) (doc' : LoroDoc)
    (ephemeralStore' : option EphemeralStore) : M unit :=
  perform NewWebsocket ;;
  new_LoroProvider
    {| given_name := documentId;
       given_doc := Present (Some doc');
       given_ephemeralStore := Present ephemeralStore';
       given_websocketProvider := Present (Some (SharedWebsocket socket));
       given_forceSyncInterval := Absent |} ;;
  attach.

End WithTags.

End LoroProvider.

(* ===================================================================== *)
(** * Playground: cursors                                                 *)
(* ===================================================================== *)

Module Cursor.

(** What [cursor.pos()] returns when the cursor has a position. *)
Record Position := {
  peer : string;
  counter : Z }.

(** A [Cursor] of loro-crdt, by what its accessors [pos()] and
    [containerId()] return. *)
Record Cursor := {
  pos : option Position;
  containerId : string }.

(** [aPos?.peer === bPos?.peer] and [aPos?.counter === bPos?.counter]:
    [undefined] on an absent position. *)
Definition same_peer (a b : option Position) : bool :=
  match a, b with
  | Some p, Some q => String.eqb (peer p) (peer q)
  | None, None => true
  | _, _ => false
  end.

Definition same_counter (a b : option Position) : bool :=
  match a, b with
  | Some p, Some q => (counter p =? counter q)%Z
  | None, None => true
  | _, _ => false
  end.

(** [cursorEq(a, b)]; [None] is [null] or [undefined]. *)
Definition cursorEq (a b : option Cursor) : bool :=
  match a, b with
  | None, None => true
  | None, Some _ | Some _, None => false
  | Some a, Some b =>
      same_peer (pos a) (pos b)
      && same_counter (pos a) (pos b)
      && String.eqb (containerId a) (containerId b)
  end.

End Cursor.

(* ===================================================================== *)
(** * Sample objects                                                      *)
(* ===================================================================== *)

(** Small concrete engines, documents and providers, on which the general
    statements below are instantiated. *)
Module Samples.

(** A tag table for the samples: [Auth] as in the Yjs protocol of the hub,
    the Loro kinds in a contiguous block after the built-in kinds.  The
    general statements below hold for every table. *)
#[export] Instance tags : MessageType.Table :=
  {| MessageType.Auth := 2;
     MessageType.LoroUpdate := 9;
     MessageType.LoroSyncRequest := 10;
     MessageType.LoroSyncBatch := 11;
     MessageType.LoroEphemeral := 12 |}.

(** A replica that keeps the updates it imported.  It rejects the empty
    update; it answers an export from version [n] with the updates after the
    first [n], as an array, and refuses a version beyond its history; the
    full export is the concatenation of all updates, as one byte array. *)
Definition Replica := list bytes.

#[export] Instance engine : Document.LoroDocLike Replica nat :=
  {| Document.import := fun update r =>
       match update with
       | [] => (Throw (ForeignError "decode error"), r)
       | _ => (Normal tt, r ++ [update])
       end;
     Document.export := fun from r =>
       match from with
       | Some n =>
           if (n <=? List.length r)%nat
           then (Normal (Document.UpdateArray (skipn n r)), r)
           else (Throw (ForeignError "unknown version"), r)
       | None => (Normal (Document.OneUpdate (List.concat r)), r)
       end |}.

(** The versions of this replica are numbers: [0] is falsy. *)
#[export] Instance truthy_nat : Truthy nat := fun n => negb (Nat.eqb n 0).

Definition alice : Document.Connection :=
  {| Document.connId := 1; Document.webSocket := 101 |}.
Definition bob : Document.Connection :=
  {| Document.connId := 2; Document.webSocket := 102 |}.
Definition carol : Document.Connection :=
  {| Document.connId := 3; Document.webSocket := 103 |}.

(** A document with a replica and three connections. *)
Definition room : Document.Heap Replica :=
  Document.after
    [Document.CallSetLoroDoc (Some []);
     Document.CallAddConnection alice;
     Document.CallAddConnection bob;
     Document.CallAddConnection carol]
    (Document.fresh "d").

(** The same after two accepted updates. *)
Definition busy_room : Document.Heap Replica :=
  Document.after
    [Document.CallHandleLoroUpdate [x07] (Some alice);
     Document.CallHandleLoroUpdate [x08; x09] (Some bob)]
    room.

(** A Loro document on the client that accepts every update and whose
    version serialises to [{}]. *)
Definition client_doc : LoroProvider.LoroDoc :=
  {| LoroProvider.doc_subscribeLocalUpdates :=
       Some (Some {| LoroProvider.unsubscribe_throws := false |});
     LoroProvider.doc_import := Some (fun _ _ => Normal tt);
     LoroProvider.doc_oplogVersion := Some (fun _ => Normal "{}"%string) |}.

Definition client_store : LoroProvider.EphemeralStore :=
  {| LoroProvider.store_subscribeLocalUpdates :=
       Some (Some {| LoroProvider.unsubscribe_throws := true |});
     LoroProvider.store_apply := Some (fun _ _ => Normal tt) |}.

(** The runtime before the provider exists. *)
Definition boot : LoroProvider.Heap :=
  {| LoroProvider.this := LoroProvider.initial;
     LoroProvider.events := [];
     LoroProvider.timers := [];
     LoroProvider.nextTimer := 1 |}.

(** [new LoroProvider({ name: "d", doc, ephemeralStore, websocketProvider })]:
    the caller passes a shared web socket and has not called [attach()]. *)
Definition shared_config : LoroProvider.PartialConfiguration :=
  {| LoroProvider.given_name := "d";
     LoroProvider.given_doc := LoroProvider.Present (Some client_doc);
     LoroProvider.given_ephemeralStore := LoroProvider.Present (Some client_store);
     LoroProvider.given_websocketProvider :=
       LoroProvider.Present (Some (LoroProvider.SharedWebsocket 0));
     LoroProvider.given_forceSyncInterval := LoroProvider.Absent |}.

Definition detached_provider : LoroProvider.Heap :=
  snd (LoroProvider.new_LoroProvider shared_config boot).

(** The same provider after [attach()]. *)
Definition attached_provider : LoroProvider.Heap :=
  snd (LoroProvider.attach detached_provider).

(** [provider.setConfiguration({ name: "d", websocketProvider: undefined })]
    on the attached provider: the spread puts [undefined] in the place of
    the web socket. *)
Definition socketless_provider : LoroProvider.Heap :=
  snd (LoroProvider.setConfiguration
         {| LoroProvider.given_name := "d";
            LoroProvider.given_doc := LoroProvider.Absent;
            LoroProvider.given_ephemeralStore := LoroProvider.Absent;
            LoroProvider.given_websocketProvider := LoroProvider.Present None;
            LoroProvider.given_forceSyncInterval := LoroProvider.Absent |}
         attached_provider).

(** A Loro document on the client that rejects the empty update. *)
Definition picky_doc : LoroProvider.LoroDoc :=
  {| LoroProvider.doc_subscribeLocalUpdates := Some None;
     LoroProvider.doc_import :=
       Some (fun _ update =>
               match update with
               | [] => Throw (ForeignError "decode error")
               | _ => Normal tt
               end);
     LoroProvider.doc_oplogVersion := None |}.

(** [new LoroProvider({ name: "d", doc, forceSyncInterval: -5 })]: no web
    socket is passed, so the provider creates and manages its own. *)
Definition own_config : LoroProvider.PartialConfiguration :=
  {| LoroProvider.given_name := "d";
     LoroProvider.given_doc := LoroProvider.Present (Some picky_doc);
     LoroProvider.given_ephemeralStore := LoroProvider.Absent;
     LoroProvider.given_websocketProvider := LoroProvider.Absent;
     LoroProvider.given_forceSyncInterval :=
       LoroProvider.Present (LoroProvider.FsNumber (integer (-5))) |}.

Definition picky_provider : LoroProvider.Heap :=
  snd (LoroProvider.new_LoroProvider own_config boot).

(** [new LoroProvider({ name: "d", doc, websocketProvider: undefined })]:
    the key is there, with no web socket under it. *)
Definition undefined_socket_config : LoroProvider.PartialConfiguration :=
  {| LoroProvider.given_name := "d";
     LoroProvider.given_doc := LoroProvider.Present (Some client_doc);
     LoroProvider.given_ephemeralStore := LoroProvider.Absent;
     LoroProvider.given_websocketProvider := LoroProvider.Present None;
     LoroProvider.given_forceSyncInterval := LoroProvider.Absent |}.

(** [new LoroProvider({ name: "d", doc, forceSyncInterval: NaN })] *)
Definition nan_config : LoroProvider.PartialConfiguration :=
  {| LoroProvider.given_name := "d";
     LoroProvider.given_doc := LoroProvider.Present (Some picky_doc);
     LoroProvider.given_ephemeralStore := LoroProvider.Absent;
     LoroProvider.given_websocketProvider := LoroProvider.Absent;
     LoroProvider.given_forceSyncInterval :=
       LoroProvider.Present (LoroProvider.FsNumber NaN) |}.

(** Two cursors at the same position of the same container, and one
    without a position. *)
Definition cursor_at_3 : Cursor.Cursor :=
  {| Cursor.pos := Some {| Cursor.peer := "7"; Cursor.counter := 3 |};
     Cursor.containerId := "cid:root-doc:Map" |}.

Definition cursor_without_position : Cursor.Cursor :=
  {| Cursor.pos := None; Cursor.containerId := "cid:root-doc:Map" |}.

End Samples.

(* ===================================================================== *)
(** * Facts about the codec                                               *)
(* ===================================================================== *)

Module CodecFacts.
Import Codec.

Lemma to_N_byte_of_N (n : N) : (n < 256)%N -> Byte.to_N (byte_of_N n) = n.
Proof.
  intros Hn. unfold byte_of_N.
  destruct (Byte.of_N n) as [b|] eqn:E.
  - apply Byte.to_of_N. exact E.
  - apply Byte.of_N_None_iff in E. lia.
Qed.

Lemma land_127 (n : N) : N.land 127 n = (n mod 128)%N.
Proof.
  rewrite N.land_comm. change 127%N with (N.ones 7).
  rewrite N.land_ones. reflexivity.
Qed.

Lemma lor_128 (x : N) : (x < 128)%N -> N.lor 128 x = (128 + x)%N.
Proof.
  intros Hx.
  assert (Hland : N.land 128 x = 0%N).
  { apply N.bits_inj. intros i. rewrite N.land_spec, N.bits_0.
    destruct (N.eq_dec i 7) as [->|Hi].
    - replace (N.testbit x 7) with false; [apply andb_false_r|].
      symmetry. apply N.bits_above_log2.
      destruct (N.eq_dec x 0) as [->|Hx0]; [reflexivity|].
      apply N.log2_lt_pow2; [lia|exact Hx].
    - change 128%N with (2 ^ 7)%N. rewrite N.pow2_bits_false by congruence.
      reflexivity. }
  rewrite <- N.lxor_lor by exact Hland.
  symmetry. apply N.add_nocarry_lxor. exact Hland.
Qed.

Lemma readVarUint_from_cons (r : byte) (rest : bytes) (num mult : N) :
  readVarUint_from (r :: rest) num mult
  = if (Byte.to_N r <? 128)%N
    then Some ((num + N.land (Byte.to_N r) 127 * mult)%N, rest)
    else readVarUint_from rest (num + N.land (Byte.to_N r) 127 * mult)%N
           (mult * 128)%N.
Proof. reflexivity. Qed.

(** Reading back a written [varuint], from any accumulator. *)
Lemma readVarUint_from_writeVarUint (n : N) :
  forall rest num mult,
    readVarUint_from (writeVarUint n ++ rest) num mult
    = Some ((num + n * mult)%N, rest).
Proof.
  induction n as [n IH] using (well_founded_induction N.lt_wf_0).
  intros rest num mult.
  rewrite writeVarUint_equation_1.
  unfold writeVarUint_unfold_clause_1.
  destruct (inspect (127 <? n)%N) as [[|] E];
    rewrite <- app_comm_cons, readVarUint_from_cons.
  - apply N.ltb_lt in E.
    assert (Hm : (n mod 128 < 128)%N) by (apply N.mod_lt; lia).
    rewrite land_127, lor_128 by exact Hm.
    rewrite to_N_byte_of_N by lia.
    replace (128 + n mod 128 <? 128)%N with false
      by (symmetry; apply N.ltb_ge, N.le_add_r).
    rewrite IH by (apply N.div_lt; lia).
    f_equal. f_equal.
    rewrite N.land_comm, land_127.
    rewrite <- (N.mod_unique (128 + n mod 128) 128 1 (n mod 128) Hm)
      by (rewrite N.mul_1_r; reflexivity).
    rewrite (N.div_mod n 128) at 3 by lia. ring.
  - apply N.ltb_ge in E.
    rewrite land_127.
    rewrite N.mod_small by lia.
    rewrite to_N_byte_of_N by lia.
    replace (n <? 128)%N with true by (symmetry; apply N.ltb_lt; lia).
    f_equal. f_equal.
    rewrite N.land_comm, land_127. rewrite N.mod_small by lia. reflexivity.
Qed.

Lemma readVarUint_writeVarUint (n : N) (rest : bytes) :
  readVarUint (writeVarUint n ++ rest) = Some (n, rest).
Proof.
  unfold readVarUint. rewrite readVarUint_from_writeVarUint.
  f_equal. f_equal. lia.
Qed.

Lemma readVarUint8Array_writeVarUint8Array (b rest : bytes) :
  readVarUint8Array (writeVarUint8Array b ++ rest) = Some (b, rest).
Proof.
  unfold readVarUint8Array, writeVarUint8Array.
  rewrite <- app_assoc, readVarUint_writeVarUint.
  unfold readUint8Array. rewrite length_app.
  replace (N.of_nat (List.length b) <=? N.of_nat (List.length b + List.length rest))%N
    with true by (symmetry; apply N.leb_le; lia).
  rewrite Nat2N.id.
  rewrite firstn_app, Nat.sub_diag, firstn_all. simpl. rewrite app_nil_r.
  rewrite skipn_app, Nat.sub_diag, skipn_all. reflexivity.
Qed.

Lemma readVarString_writeVarString (s : string) (rest : bytes) :
  readVarString (writeVarString s ++ rest) = Some (s, rest).
Proof.
  unfold readVarString, writeVarString.
  rewrite readVarUint8Array_writeVarUint8Array.
  rewrite string_of_list_byte_of_string. reflexivity.
Qed.

End CodecFacts.

(* ===================================================================== *)
(** * Facts about programs and maps                                       *)
(* ===================================================================== *)

Module JsFacts.

Section Frames.
Context {S : Type} (I : S -> S -> Prop).
Hypothesis I_refl : forall s, I s s.
Hypothesis I_trans : forall a b c, I a b -> I b c -> I a c.

Lemma preserves_ret {A} (a : A) : preserves I (ret a).
Proof. intros s. apply I_refl. Qed.

Lemma preserves_throw {A} (e : Exn) : preserves I (@throw S A e).
Proof. intros s. apply I_refl. Qed.

Lemma preserves_bind {A B} (m : Prog S A) (k : A -> Prog S B) :
  preserves I m -> (forall a, preserves I (k a)) -> preserves I (bind m k).
Proof.
  intros Hm Hk s. unfold bind. specialize (Hm s).
  destruct (m s) as [[a|e] s']; simpl in *.
  - eapply I_trans; [exact Hm | apply Hk].
  - exact Hm.
Qed.

Lemma preserves_tryCatch {A} (body : Prog S A) (handler : Exn -> Prog S A) :
  preserves I body -> (forall e, preserves I (handler e)) ->
  preserves I (tryCatch body handler).
Proof.
  intros Hb Hh s. unfold tryCatch. specialize (Hb s).
  destruct (body s) as [[a|e] s']; simpl in *.
  - exact Hb.
  - eapply I_trans; [exact Hb | apply Hh].
Qed.

Lemma preserves_when (c : bool) (body : Prog S unit) :
  preserves I body -> preserves I (when c body).
Proof. intros Hb. destruct c; [exact Hb | apply preserves_ret]. Qed.

Lemma preserves_forEach {A} (l : list A) (f : A -> Prog S unit) :
  (forall a, preserves I (f a)) -> preserves I (forEach l f).
Proof.
  intros Hf. induction l as [|x rest IH]; simpl.
  - apply preserves_ret.
  - apply preserves_bind; [apply Hf | intros _; exact IH].
Qed.

Lemma preserves_modify (f : S -> S) :
  (forall s, I s (f s)) -> preserves I (modify f).
Proof. intros Hf s. apply Hf. Qed.

End Frames.

(** ** [Map] *)

Section Maps.
Context {V : Type}.
Implicit Types m : JsMap.t V.

Lemma keys_set m k v :
  JsMap.keys (JsMap.set m k v)
  = if in_dec Nat.eq_dec k (JsMap.keys m) then JsMap.keys m
    else JsMap.keys m ++ [k].
Proof.
  induction m as [|[k' v'] rest IH]; simpl; [reflexivity|].
  destruct (Nat.eqb_spec k' k) as [->|Hne]; simpl.
  - destruct (Nat.eq_dec k k); [reflexivity | congruence].
  - unfold JsMap.keys in *. rewrite IH.
    destruct (Nat.eq_dec k' k); [congruence|].
    destruct (in_dec Nat.eq_dec k (map fst rest)); reflexivity.
Qed.

Lemma NoDup_keys_set m k v :
  NoDup (JsMap.keys m) -> NoDup (JsMap.keys (JsMap.set m k v)).
Proof.
  intros Hnd. rewrite keys_set.
  destruct (in_dec Nat.eq_dec k (JsMap.keys m)) as [Hin|Hout]; [exact Hnd|].
  apply NoDup_app; [exact Hnd | repeat constructor; intros [] | ].
  intros x Hx [<-|[]]. contradiction.
Qed.

Lemma Forall_set (P : nat * V -> Prop) m k v :
  Forall P m -> P (k, v) -> Forall P (JsMap.set m k v).
Proof.
  intros Hm Hkv. induction Hm as [|[k' v'] rest Hx Hrest IH]; simpl.
  - repeat constructor. exact Hkv.
  - destruct (Nat.eqb k' k); constructor; assumption.
Qed.

Lemma NoDup_keys_delete m k :
  NoDup (JsMap.keys m) -> NoDup (JsMap.keys (JsMap.delete m k)).
Proof.
  unfold JsMap.keys, JsMap.delete.
  induction m as [|[k' v'] rest IH]; simpl; intros Hnd; [constructor|].
  inversion Hnd as [|? ? Hout Hrest]; subst.
  destruct (negb (Nat.eqb k' k)); simpl; [|auto].
  constructor; [|auto].
  intros Hin. apply Hout. apply in_map_iff in Hin.
  destruct Hin as [e [He Hf]]. apply filter_In in Hf.
  apply in_map_iff. exists e. tauto.
Qed.

Lemma Forall_delete (P : nat * V -> Prop) m k :
  Forall P m -> Forall P (JsMap.delete m k).
Proof.
  intros Hm. apply Forall_forall. intros e He.
  apply filter_In in He. rewrite Forall_forall in Hm. apply Hm, He.
Qed.

End Maps.

End JsFacts.

(* ===================================================================== *)
(** * Facts about the server document                                     *)
(* ===================================================================== *)

Module DocumentFacts.
Import Document.

Lemma Connection_eqb_eq (a b : Connection) :
  Connection_eqb a b = true <-> a = b.
Proof.
  unfold Connection_eqb. destruct a as [i w], b as [j v]; simpl.
  rewrite andb_true_iff, !Nat.eqb_eq. split.
  - intros [-> ->]. reflexivity.
  - intros E. inversion E. auto.
Qed.

Lemma Connection_eqb_refl (a : Connection) : Connection_eqb a a = true.
Proof. apply Connection_eqb_eq. reflexivity. Qed.

Lemma sends_app (a b : list Effect) : sends (a ++ b) = sends a ++ sends b.
Proof. unfold sends. apply flat_map_app. Qed.

Lemma sends_Send (f : bytes) (l : list Connection) :
  sends (map (fun c => Send c f) l) = map (fun c => (c, f)) l.
Proof.
  induction l as [|c rest IH]; simpl; [reflexivity|].
  f_equal. exact IH.
Qed.

(** Removing one element of a duplicate-free list shortens it by one. *)
Lemma length_without (o : Connection) (l : list Connection) :
  NoDup l -> In o l ->
  List.length (filter (fun c => negb (Connection_eqb c o)) l)
  = (List.length l - 1)%nat.
Proof.
  induction l as [|c rest IH]; simpl; intros Hnd Hin; [contradiction|].
  inversion Hnd as [|? ? Hout Hrest]; subst.
  destruct (Connection_eqb c o) eqn:E; simpl.
  - apply Connection_eqb_eq in E. subst c.
    rewrite Nat.sub_0_r. f_equal.
    apply forallb_filter_id. apply forallb_forall. intros x Hx.
    destruct (Connection_eqb x o) eqn:Ex; [|reflexivity].
    apply Connection_eqb_eq in Ex. subst x. contradiction.
  - destruct Hin as [->|Hin]; [rewrite Connection_eqb_refl in E; discriminate|].
    rewrite IH by assumption.
    destruct rest; [contradiction|simpl; lia].
Qed.

Section WithEngine.
Context {R VV : Type} `{LoroDocLike R VV} `{Truthy VV} `{MessageType.Table}.

Implicit Types (h : Heap R) (d : Document R).

Lemma emitted_app {A} (m : M R A) h (l : list Effect) :
  effects (snd (m h)) = effects h ++ l -> emitted m h = l.
Proof.
  intros E. unfold emitted. rewrite E, skipn_app, skipn_all, Nat.sub_diag.
  reflexivity.
Qed.

(** ** The broadcast loop *)

Lemma broadcast_run (origin : option Connection) (frame : bytes)
    (conns : list Connection) h :
  forEach conns (fun conn =>
    if is_origin origin conn then ret tt else perform (Send conn frame)) h
  = (Normal tt,
     {| this := this h;
        effects := effects h
          ++ map (fun c => Send c frame)
               (filter (fun c => negb (is_origin origin c)) conns) |}).
Proof.
  revert h. induction conns as [|c rest IH]; intros h; simpl.
  - rewrite app_nil_r. destruct h; reflexivity.
  - unfold bind. destruct (is_origin origin c); simpl.
    + apply IH.
    + rewrite IH. simpl. rewrite <- app_assoc. reflexivity.
Qed.

(** The connections of a well-formed map are pairwise distinct. *)
Lemma connection_list_NoDup d :
  connections_wf d -> NoDup (connection_list d).
Proof.
  intros [Hnd Hkeyed]. unfold connection_list, JsMap.values, JsMap.keys in *.
  apply (NoDup_map_inv webSocket).
  rewrite !map_map.
  erewrite map_ext_in; [exact Hnd|].
  intros e He. rewrite Forall_forall in Hkeyed. symmetry. apply Hkeyed, He.
Qed.

(** ** [broadcastLoroEphemeral] *)

Lemma broadcastLoroEphemeral_run (update : bytes) (origin : option Connection) h :
  broadcastLoroEphemeral update origin h
  = (Normal tt,
     {| this := this h;
        effects := effects h
          ++ map (fun c => Send c (writeLoroEphemeral (name (this h)) update))
               (filter (fun c => negb (is_origin origin c))
                  (connection_list (this h))) |}).
Proof.
  unfold broadcastLoroEphemeral, getConnections, read_this, bind. simpl.
  apply broadcast_run.
Qed.

(** ** [handleLoroUpdate], by what the import does *)

Lemma handleLoroUpdate_without_replica (update : bytes) (origin : option Connection) h :
  loroDoc (this h) = None ->
  handleLoroUpdate update origin h
  = (Normal tt,
     {| this := set_loroUpdates (loroUpdates (this h) ++ [update]) (this h);
        effects := effects h
          ++ map (fun c => Send c (writeLoroUpdate (name (this h)) update))
               (filter (fun c => negb (is_origin origin c))
                  (connection_list (this h)))
          ++ [OnLoroUpdate origin update] |}).
Proof.
  intros E.
  unfold handleLoroUpdate, getConnections, read_this, update_this, modify,
    bind, when. simpl. rewrite E. simpl.
  rewrite broadcast_run. unfold perform, modify. simpl.
  rewrite <- app_assoc. reflexivity.
Qed.

Lemma handleLoroUpdate_imported (update : bytes) (origin : option Connection) h r r' :
  loroDoc (this h) = Some r ->
  import update r = (Normal tt, r') ->
  handleLoroUpdate update origin h
  = (Normal tt,
     {| this := set_loroDoc (Some r')
                  (set_loroUpdates (loroUpdates (this h) ++ [update]) (this h));
        effects := effects h
          ++ map (fun c => Send c (writeLoroUpdate (name (this h)) update))
               (filter (fun c => negb (is_origin origin c))
                  (connection_list (this h)))
          ++ [OnLoroUpdate origin update] |}).
Proof.
  intros E Himport.
  unfold handleLoroUpdate, getConnections, read_this, update_this, modify,
    bind, when, tryCatch, on_loroDoc. simpl.
  repeat (rewrite E; simpl). rewrite Himport. simpl.
  rewrite broadcast_run. unfold perform, modify. simpl.
  rewrite <- app_assoc. reflexivity.
Qed.

Lemma handleLoroUpdate_import_failed (update : bytes) (origin : option Connection) h r e r' :
  loroDoc (this h) = Some r ->
  import update r = (Throw e, r') ->
  handleLoroUpdate update origin h
  = (Normal tt,
     {| this := set_loroDoc (Some r')
                  (set_loroUpdates (loroUpdates (this h) ++ [update]) (this h));
        effects := effects h
          ++ [ConsoleError "Failed to import Loro update:"]
          ++ map (fun c => Send c (writeLoroUpdate (name (this h)) update))
               (filter (fun c => negb (is_origin origin c))
                  (connection_list (this h)))
          ++ [OnLoroUpdate origin update] |}).
Proof.
  intros E Himport.
  unfold handleLoroUpdate, getConnections, read_this, update_this, modify,
    bind, when, tryCatch, on_loroDoc. simpl.
  repeat (rewrite E; simpl). rewrite Himport. simpl.
  rewrite broadcast_run. unfold perform, modify. simpl.
  rewrite <- !app_assoc. reflexivity.
Qed.

(** Whatever the import does, the frames of [handleLoroUpdate] go to the
    connections other than the origin. *)
Lemma handleLoroUpdate_sends (update : bytes) (origin : option Connection) h :
  sends (emitted (handleLoroUpdate update origin) h)
  = map (fun c => (c, writeLoroUpdate (name (this h)) update))
      (filter (fun c => negb (is_origin origin c)) (connection_list (this h))).
Proof.
  destruct (loroDoc (this h)) as [r|] eqn:E.
  - destruct (import update r) as [[[]|e] r'] eqn:Himport.
    + erewrite emitted_app
        by (rewrite (handleLoroUpdate_imported _ _ _ E Himport); reflexivity).
      rewrite sends_app, sends_Send. simpl. apply app_nil_r.
    + erewrite emitted_app
        by (rewrite (handleLoroUpdate_import_failed _ _ _ E Himport); reflexivity).
      simpl. rewrite sends_app, sends_Send. simpl. apply app_nil_r.
  - erewrite emitted_app
      by (rewrite (handleLoroUpdate_without_replica _ _ _ E); reflexivity).
    rewrite sends_app, sends_Send. simpl. apply app_nil_r.
Qed.

Lemma broadcastLoroEphemeral_sends (update : bytes) (origin : option Connection) h :
  sends (emitted (broadcastLoroEphemeral update origin) h)
  = map (fun c => (c, writeLoroEphemeral (name (this h)) update))
      (filter (fun c => negb (is_origin origin c)) (connection_list (this h))).
Proof.
  erewrite emitted_app
    by (rewrite broadcastLoroEphemeral_run; reflexivity).
  apply sends_Send.
Qed.

(** ** Methods that leave the connection bookkeeping alone *)

Lemma same_connections_refl h : same_connections h h.
Proof. split; reflexivity. Qed.

Lemma same_connections_trans h1 h2 h3 :
  same_connections h1 h2 -> same_connections h2 h3 -> same_connections h1 h3.
Proof. intros [A B] [C D]. split; congruence. Qed.

Lemma perform_same (e : Effect) : preserves (@same_connections R) (perform e).
Proof. intros h. split; reflexivity. Qed.

Lemma read_this_same {A} (f : Document R -> A) :
  preserves (@same_connections R) (read_this f).
Proof. intros h. split; reflexivity. Qed.

Lemma on_loroDoc_same {A} (call : Prog R A) :
  preserves (@same_connections R) (on_loroDoc call).
Proof.
  intros h. unfold on_loroDoc.
  destruct (loroDoc (this h)); [destruct (call r)|]; split; reflexivity.
Qed.

Lemma update_this_same (f : Document R -> Document R) :
  (forall d, connections (f d) = connections d
             /\ directConnectionsCount (f d) = directConnectionsCount d) ->
  preserves (@same_connections R) (update_this f).
Proof. intros Hf h. apply Hf. Qed.

Ltac frame :=
  repeat first
    [ exact same_connections_refl
    | exact same_connections_trans
    | apply JsFacts.preserves_bind
    | apply JsFacts.preserves_tryCatch
    | apply JsFacts.preserves_when
    | apply JsFacts.preserves_forEach
    | apply JsFacts.preserves_ret
    | apply perform_same
    | apply read_this_same
    | apply on_loroDoc_same
    | apply update_this_same; intros ?; split; reflexivity
    | match goal with
      | |- forall _, preserves _ _ => intro
      | |- preserves _ (match ?x with _ => _ end) => destruct x
      | |- preserves _ (if ?x then _ else _) => destruct x
      end ].

Lemma setLoroDoc_same (r : option R) : preserves (@same_connections R) (setLoroDoc r).
Proof. unfold setLoroDoc. frame. Qed.

Lemma handleLoroUpdate_same (update : bytes) (origin : option Connection) :
  preserves (@same_connections R) (handleLoroUpdate update origin).
Proof. unfold handleLoroUpdate, getConnections. frame. Qed.

Lemma exportLoroUpdates_same (versionVector : option VV) :
  preserves (@same_connections R) (exportLoroUpdates versionVector).
Proof. unfold exportLoroUpdates. frame. Qed.

Lemma broadcastLoroEphemeral_same (update : bytes) (origin : option Connection) :
  preserves (@same_connections R) (broadcastLoroEphemeral update origin).
Proof. unfold broadcastLoroEphemeral, getConnections. frame. Qed.

Lemma destroy_same : preserves (@same_connections R) destroy.
Proof. unfold destroy. frame. Qed.

(** ** Invariants of the connection bookkeeping *)

Lemma call_connections_wf (c : Call R VV) h :
  connections_wf (this h) -> connections_wf (this (snd (call c h))).
Proof.
  assert (Hsame : forall (m : M R unit), preserves (@same_connections R) m ->
            connections_wf (this h) -> connections_wf (this (snd (m h)))).
  { intros m Hm Hwf. destruct (Hm h) as [E _].
    unfold connections_wf in *. rewrite E. exact Hwf. }
  destruct c; unfold call.
  - apply Hsame, setLoroDoc_same.
  - intros [Hnd Hkeyed]. split; simpl.
    + apply JsFacts.NoDup_keys_set, Hnd.
    + apply JsFacts.Forall_set; [exact Hkeyed | reflexivity].
  - intros [Hnd Hkeyed]. split; simpl.
    + apply JsFacts.NoDup_keys_delete, Hnd.
    + apply JsFacts.Forall_delete, Hkeyed.
  - intros Hwf. exact Hwf.
  - intros Hwf. unfold removeDirectConnection, read_this, bind, when. simpl.
    destruct (0 <? directConnectionsCount (this h))%Z; exact Hwf.
  - apply Hsame, handleLoroUpdate_same.
  - apply Hsame. unfold discard. frame.
  - apply Hsame, broadcastLoroEphemeral_same.
  - apply Hsame, destroy_same.
Qed.

Lemma call_directConnectionsCount (c : Call R VV) h :
  (0 <= directConnectionsCount (this h))%Z ->
  (0 <= directConnectionsCount (this (snd (call c h))))%Z.
Proof.
  assert (Hsame : forall (m : M R unit), preserves (@same_connections R) m ->
            (0 <= directConnectionsCount (this h))%Z ->
            (0 <= directConnectionsCount (this (snd (m h))))%Z).
  { intros m Hm Hpos. destruct (Hm h) as [_ E]. rewrite E. exact Hpos. }
  destruct c; unfold call.
  - apply Hsame, setLoroDoc_same.
  - intros Hpos. exact Hpos.
  - intros Hpos. exact Hpos.
  - intros Hpos. simpl. lia.
  - intros Hpos. unfold removeDirectConnection, read_this, bind, when. simpl.
    destruct (0 <? directConnectionsCount (this h))%Z eqn:E; simpl; [|exact Hpos].
    apply Z.ltb_lt in E. lia.
  - apply Hsame, handleLoroUpdate_same.
  - apply Hsame. unfold discard. frame.
  - apply Hsame, broadcastLoroEphemeral_same.
  - apply Hsame, destroy_same.
Qed.

(** Every document reached from [new Document(name)] by method calls has a
    well-formed connection map. *)
Lemma reachable_connections_wf (documentName : string) (cs : list (Call R VV)) :
  connections_wf (this (after cs (fresh documentName))).
Proof.
  assert (G : forall cs h, connections_wf (this h) ->
                connections_wf (this (after cs h))).
  { clear cs. induction cs as [|c rest IH]; intros h Hwf; simpl; [exact Hwf|].
    apply IH, call_connections_wf, Hwf. }
  apply G. split; simpl; constructor.
Qed.

(** ** The properties of the specification *)

(** C1: Origin elision.  Let [C] be the connections of a document whose
    connection map is as [addConnection] builds it, and let [o] be one of
    them.  Then [handleLoroUpdate(u, o)] and [broadcastLoroEphemeral(u, o)]
    each hand the encoded frame to [conn.send] for exactly the connections
    of [C] other than [o], once each: [|C| - 1] sends, none to [o].  Without
    an origin the frame goes to every connection of [C]. *)
Theorem origin_elision (h : Heap R) (update : bytes) :
  let C := connection_list (this h) in
  let update_frame := writeLoroUpdate (name (this h)) update in
  let ephemeral_frame := writeLoroEphemeral (name (this h)) update in
  (forall o : Connection,
      connections_wf (this h) -> In o C ->
      let sent := sends (emitted (handleLoroUpdate update (Some o)) h) in
      let relayed := sends (emitted (broadcastLoroEphemeral update (Some o)) h) in
      sent = map (fun c => (c, update_frame))
               (filter (fun c => negb (Connection_eqb c o)) C)
      /\ relayed = map (fun c => (c, ephemeral_frame))
                     (filter (fun c => negb (Connection_eqb c o)) C)
      /\ (forall c, In c (map fst sent) <-> In c C /\ c <> o)
      /\ (forall c, In c (map fst relayed) <-> In c C /\ c <> o)
      /\ NoDup (map fst sent)
      /\ NoDup (map fst relayed)
      /\ List.length sent = (List.length C - 1)%nat
      /\ List.length relayed = (List.length C - 1)%nat)
  /\ sends (emitted (handleLoroUpdate update None) h)
     = map (fun c => (c, update_frame)) C
  /\ sends (emitted (broadcastLoroEphemeral update None) h)
     = map (fun c => (c, ephemeral_frame)) C.
Proof.
  intros C update_frame ephemeral_frame.
  assert (Hall : filter (fun c => negb (is_origin None c))
                   (connection_list (this h)) = C).
  { apply forallb_filter_id. apply forallb_forall. reflexivity. }
  split; [|split].
  - intros o Hwf Hin sent relayed.
    assert (Hnd : NoDup C) by (apply connection_list_NoDup, Hwf).
    assert (Hsent : sent = map (fun c => (c, update_frame))
                             (filter (fun c => negb (Connection_eqb c o)) C))
      by apply handleLoroUpdate_sends.
    assert (Hrelayed : relayed = map (fun c => (c, ephemeral_frame))
                                   (filter (fun c => negb (Connection_eqb c o)) C))
      by apply broadcastLoroEphemeral_sends.
    assert (Hmem : forall c,
               In c (filter (fun c => negb (Connection_eqb c o)) C)
               <-> In c C /\ c <> o).
    { intros c. rewrite filter_In, negb_true_iff.
      split; intros [Hc Hne]; split; try exact Hc.
      - intros ->. rewrite Connection_eqb_refl in Hne. discriminate.
      - destruct (Connection_eqb c o) eqn:E; [|reflexivity].
        apply Connection_eqb_eq in E. contradiction. }
    assert (Hfst : forall (f : bytes) (l : list Connection),
               map fst (map (fun c => (c, f)) l) = l).
    { intros f l. rewrite map_map. simpl. apply map_id. }
    rewrite Hsent, Hrelayed, !Hfst, !length_map.
    split; [reflexivity|]. split; [reflexivity|].
    split; [exact Hmem|]. split; [exact Hmem|].
    split; [apply NoDup_filter, Hnd|]. split; [apply NoDup_filter, Hnd|].
    split; apply length_without; assumption.
  - unfold update_frame. rewrite handleLoroUpdate_sends, Hall. reflexivity.
  - unfold ephemeral_frame. rewrite broadcastLoroEphemeral_sends, Hall.
    reflexivity.
Qed.

(** C2: A failed import is not fatal.  If the replica throws on the import
    of [u] inside [handleLoroUpdate], the method still returns normally: the
    failure is logged with [console.error], [u] is appended to the stored
    updates, the [LoroUpdate] frame goes to every connection other than the
    origin, and the [onLoroUpdate] callback runs, in this order. *)
Theorem import_failure_is_logged_and_skipped
    (h : Heap R) (update : bytes) (origin : option Connection)
    (r r' : R) (e : Exn) :
  loroDoc (this h) = Some r ->
  import update r = (Throw e, r') ->
  let h' := snd (handleLoroUpdate update origin h) in
  fst (handleLoroUpdate update origin h) = Normal tt
  /\ loroUpdates (this h') = loroUpdates (this h) ++ [update]
  /\ emitted (handleLoroUpdate update origin) h
     = [ConsoleError "Failed to import Loro update:"]
       ++ map (fun c => Send c (writeLoroUpdate (name (this h)) update))
            (filter (fun c => negb (is_origin origin c))
               (connection_list (this h)))
       ++ [OnLoroUpdate origin update].
Proof.
  intros E Himport h'.
  pose proof (handleLoroUpdate_import_failed update origin h E Himport) as Hrun.
  repeat split.
  - rewrite Hrun. reflexivity.
  - unfold h'. rewrite Hrun. reflexivity.
  - apply emitted_app. rewrite Hrun. reflexivity.
Qed.

(** C3: Ephemeral payloads are not stored.  [broadcastLoroEphemeral(E,
    origin)] returns normally and leaves the document as it was: the stored
    updates, the replica and the connection map are the same before and
    after; all it adds to the world are [conn.send] calls carrying the
    [LoroEphemeral] frame. *)
Theorem ephemeral_is_only_relayed
    (h : Heap R) (update : bytes) (origin : option Connection) :
  let h' := snd (broadcastLoroEphemeral update origin h) in
  let added := emitted (broadcastLoroEphemeral update origin) h in
  fst (broadcastLoroEphemeral update origin h) = Normal tt
  /\ this h' = this h
  /\ loroUpdates (this h') = loroUpdates (this h)
  /\ loroDoc (this h') = loroDoc (this h)
  /\ connections (this h') = connections (this h)
  /\ effects h' = effects h ++ added
  /\ Forall (fun e => exists c,
               e = Send c (writeLoroEphemeral (name (this h)) update)) added.
Proof.
  intros h' added.
  pose proof (broadcastLoroEphemeral_run update origin h) as Hrun.
  assert (Hadded : added
            = map (fun c => Send c (writeLoroEphemeral (name (this h)) update))
                (filter (fun c => negb (is_origin origin c))
                   (connection_list (this h)))).
  { apply emitted_app. rewrite Hrun. reflexivity. }
  unfold h'. rewrite Hadded, Hrun. simpl.
  repeat split.
  apply Forall_forall. intros e He. apply in_map_iff in He.
  destruct He as [c [<- _]]. exists c. reflexivity.
Qed.

(** C4 (amended): [exportLoroUpdates(versionVector)] always
    returns.  With a replica and a version vector that is given and truthy
    it returns the replica's incremental export, a single byte array wrapped
    in a one-element array, provided that export does not throw.  Without a
    version vector, with a falsy one ([undefined], [null], [0], the empty
    string), or when the incremental export threw, it returns the replica's
    full export, equally wrapped, provided that export does not throw.
    Without a replica, or when the full export threw, it returns the stored
    updates [loroUpdates]. *)
Theorem exportLoroUpdates_falls_back (h : Heap R) :
  (forall r vv out r',
      loroDoc (this h) = Some r ->
      truthy vv = true ->
      export (Some vv) r = (Normal out, r') ->
      fst (exportLoroUpdates (Some vv) h) = Normal (as_array out))
  /\ (forall r out r',
      loroDoc (this h) = Some r ->
      export None r = (Normal out, r') ->
      fst (exportLoroUpdates None h) = Normal (as_array out))
  /\ (forall vv,
      truthy vv = false ->
      exportLoroUpdates (Some vv) h = exportLoroUpdates None h)
  /\ (forall r vv e r1 out r2,
      loroDoc (this h) = Some r ->
      truthy vv = true ->
      export (Some vv) r = (Throw e, r1) ->
      export None r1 = (Normal out, r2) ->
      fst (exportLoroUpdates (Some vv) h) = Normal (as_array out))
  /\ (forall r vv e r1 e' r2,
      loroDoc (this h) = Some r ->
      truthy vv = true ->
      export (Some vv) r = (Throw e, r1) ->
      export None r1 = (Throw e', r2) ->
      fst (exportLoroUpdates (Some vv) h) = Normal (loroUpdates (this h)))
  /\ (forall r e r1,
      loroDoc (this h) = Some r ->
      export None r = (Throw e, r1) ->
      fst (exportLoroUpdates None h) = Normal (loroUpdates (this h)))
  /\ (forall versionVector,
      loroDoc (this h) = None ->
      exportLoroUpdates versionVector h = (Normal (loroUpdates (this h)), h)).
Proof.
  split; [|split; [|split; [|split; [|split; [|split]]]]].
  - intros r vv out r' E Hvv Hx.
    unfold exportLoroUpdates, read_this, bind, tryCatch, on_loroDoc. simpl.
    rewrite Hvv. repeat (rewrite E; simpl). rewrite Hx. reflexivity.
  - intros r out r' E Hx.
    unfold exportLoroUpdates, read_this, bind, tryCatch, on_loroDoc. simpl.
    repeat (rewrite E; simpl). rewrite Hx. reflexivity.
  - intros vv Hvv.
    unfold exportLoroUpdates, read_this, bind. simpl. rewrite Hvv.
    destruct (loroDoc (this h)); reflexivity.
  - intros r vv e r1 out r2 E Hvv Hx Hfull.
    unfold exportLoroUpdates, read_this, bind, tryCatch, on_loroDoc. simpl.
    rewrite Hvv. repeat (rewrite E; simpl). rewrite Hx. simpl.
    rewrite Hfull. reflexivity.
  - intros r vv e r1 e' r2 E Hvv Hx Hfull.
    unfold exportLoroUpdates, read_this, bind, tryCatch, on_loroDoc. simpl.
    rewrite Hvv. repeat (rewrite E; simpl). rewrite Hx. simpl.
    rewrite Hfull. reflexivity.
  - intros r e r1 E Hx.
    unfold exportLoroUpdates, read_this, bind, tryCatch, on_loroDoc. simpl.
    repeat (rewrite E; simpl). rewrite Hx. reflexivity.
  - intros vv E.
    unfold exportLoroUpdates, read_this, bind. simpl.
    repeat (rewrite E; simpl). destruct vv; destruct h; reflexivity.
Qed.

(** C10: Connection counts.  After [new Document(name)] and any sequence of
    method calls, [directConnectionsCount] is not negative,
    [removeDirectConnection] lowers it by one exactly when it is positive,
    and [getConnectionsCount()] returns [connections.size +
    directConnectionsCount]. *)
Theorem connection_counts (documentName : string) (cs : list (Call R VV)) :
  let h := after cs (fresh documentName) in
  let n := directConnectionsCount (this h) in
  (0 <= n)%Z
  /\ directConnectionsCount (this (snd (removeDirectConnection h)))
     = (if (0 <? n)%Z then n - 1 else n)%Z
  /\ directConnectionsCount (this (snd (addDirectConnection h))) = (n + 1)%Z
  /\ getConnectionsCount h
     = (Normal (JsMap.size (connections (this h)) + n)%Z, h).
Proof.
  intros h n.
  assert (G : forall cs (h0 : Heap R),
             (0 <= directConnectionsCount (this h0))%Z ->
             (0 <= directConnectionsCount (this (after cs h0)))%Z).
  { clear. induction cs as [|c rest IH]; intros h0 Hpos; simpl; [exact Hpos|].
    apply IH, call_directConnectionsCount, Hpos. }
  repeat split.
  - apply G. simpl. lia.
  - unfold removeDirectConnection, read_this, bind, when. simpl. fold n.
    destruct (0 <? n)%Z; reflexivity.
Qed.

End WithEngine.

(** ** Instances on the sample documents *)

Import Samples.

Lemma room_wf : connections_wf (this room).
Proof. apply (reachable_connections_wf "d"). Qed.

(** C1 on the sample room: an update from [alice] goes to [bob] and
    [carol]. *)
Lemma origin_elision_in_the_room :
  connections_wf (this room)
  /\ In alice (connection_list (this room))
  /\ sends (emitted (handleLoroUpdate [x07] (Some alice)) room)
     = [(bob, writeLoroUpdate "d" [x07]); (carol, writeLoroUpdate "d" [x07])].
Proof.
  assert (Hin : In alice (connection_list (this room))) by (simpl; auto).
  split; [exact room_wf | split; [exact Hin|]].
  destruct (origin_elision room [x07]) as [Helide _].
  destruct (Helide alice room_wf Hin) as [Hsent _].
  exact Hsent.
Defined.

(** C2 on the sample room: the replica rejects the empty update. *)
Lemma import_failure_in_the_room :
  fst (handleLoroUpdate [] (Some alice) room) = Normal tt
  /\ loroUpdates (this (snd (handleLoroUpdate [] (Some alice) room))) = [[]]
  /\ emitted (handleLoroUpdate [] (Some alice)) room
     = [ConsoleError "Failed to import Loro update:";
        Send bob (writeLoroUpdate "d" []);
        Send carol (writeLoroUpdate "d" []);
        OnLoroUpdate (Some alice) []].
Proof.
  apply (@import_failure_is_logged_and_skipped _ _ engine tags
           room [] (Some alice) [] [] (ForeignError "decode error"));
    reflexivity.
Defined.

(** C4, as the claim words it, fails: the replica of [busy_room] holds two
    updates and refuses an export from version 5, and [exportLoroUpdates]
    then returns the full export, which is no incremental export of the
    replica. *)
Lemma export_with_refused_version :
  loroDoc (this busy_room) = Some [[x07]; [x08; x09]]
  /\ fst (exportLoroUpdates (Some 5%nat) busy_room) = Normal [[x07; x08; x09]]
  /\ ~ (exists out,
          fst (export (Some 5%nat) [[x07]; [x08; x09]]) = Normal out
          /\ [[x07; x08; x09]] = as_array out).
Proof.
  split; [reflexivity | split; [reflexivity|]].
  intros [out [Hout _]]. discriminate Hout.
Qed.

(** C4 (amended) on [busy_room]: an incremental export, the full export,
    the full export for the falsy version 0, and the full export as the
    fallback of a refused version. *)
Lemma exportLoroUpdates_in_the_busy_room :
  fst (exportLoroUpdates (Some 1%nat) busy_room) = Normal [[x08; x09]]
  /\ fst (exportLoroUpdates None busy_room) = Normal [[x07; x08; x09]]
  /\ fst (exportLoroUpdates (Some 0%nat) busy_room) = Normal [[x07; x08; x09]]
  /\ fst (exportLoroUpdates (Some 5%nat) busy_room) = Normal [[x07; x08; x09]].
Proof.
  destruct (exportLoroUpdates_falls_back busy_room)
    as [Hinc [Hfull [Hfalsy [Hback _]]]].
  split; [|split; [|split]].
  - apply (Hinc [[x07]; [x08; x09]] 1%nat (UpdateArray [[x08; x09]])
             [[x07]; [x08; x09]]); reflexivity.
  - apply (Hfull [[x07]; [x08; x09]] (OneUpdate [x07; x08; x09])
             [[x07]; [x08; x09]]); reflexivity.
  - rewrite (Hfalsy 0%nat eq_refl).
    apply (Hfull [[x07]; [x08; x09]] (OneUpdate [x07; x08; x09])
             [[x07]; [x08; x09]]); reflexivity.
  - apply (Hback [[x07]; [x08; x09]] 5%nat (ForeignError "unknown version")
             [[x07]; [x08; x09]] (OneUpdate [x07; x08; x09])
             [[x07]; [x08; x09]]); reflexivity.
Defined.

End DocumentFacts.

(* ===================================================================== *)
(** * Facts about the client provider                                     *)
(* ===================================================================== *)

Module LoroProviderFacts.
Import LoroProvider.

Lemma logged_nil (h : Heap) : logged [] h = h.
Proof. destruct h. unfold logged. simpl. rewrite app_nil_r. reflexivity. Qed.

Lemma logged_logged (a b : list Event) (h : Heap) :
  logged b (logged a h) = logged (a ++ b) h.
Proof. unfold logged. simpl. rewrite app_assoc. reflexivity. Qed.

Lemma events_emitted_app {A} (m : M A) (h : Heap) (l : list Event) :
  events (snd (m h)) = events h ++ l -> emitted m h = l.
Proof.
  intros E. unfold emitted. rewrite E, skipn_app, skipn_all, Nat.sub_diag.
  reflexivity.
Qed.

Lemma emitted_logged {A} (m : M A) (h : Heap) (l : list Event) (c : Completion A) :
  m h = (c, logged l h) -> emitted m h = l.
Proof. intros E. apply events_emitted_app. rewrite E. reflexivity. Qed.

Lemma filter_filter {A} (f : A -> bool) (l : list A) :
  filter f (filter f l) = filter f l.
Proof.
  induction l as [|x rest IH]; simpl; [reflexivity|].
  destruct (f x) eqn:E; simpl; [rewrite E, IH|]; auto.
Qed.

Lemma or_empty_Some (s : string) : or_empty (Some s) = s.
Proof. destruct s; reflexivity. Qed.

Section WithTags.
Context `{MessageType.Table}.

(** ** Outbound: [send] and [startSync] *)

Lemma send_run (message : OutgoingMessage) (h : Heap) :
  send message h
  = (Normal tt,
     if _isAttached (this h)
     then logged [Emit "outgoingMessage"; WsSend (toUint8Array message)] h
     else h).
Proof.
  unfold send, read_this, bind, perform, modify, logged. simpl.
  destruct (_isAttached (this h)); simpl; [|reflexivity].
  rewrite <- app_assoc. reflexivity.
Qed.

(** The version string that [startSync] puts into its request. *)
Lemma startSync_run (h : Heap) :
  startSync h
  = send (LoroSyncRequestMessage (name (configuration (this h)))
            match doc (configuration (this h)) with
            | Some d =>
                match doc_oplogVersion d with
                | Some oplogVersion =>
                    match oplogVersion (events h) with
                    | Normal json => Some json
                    | Throw _ => None
                    end
                | None => None
                end
            | None => None
            end) h.
Proof.
  unfold startSync, read_this, bind, tryCatch, ret. simpl.
  destruct (doc (configuration (this h))) as [d|]; [|reflexivity].
  destruct (doc_oplogVersion d) as [oplogVersion|]; [|reflexivity].
  destruct (oplogVersion (events h)); reflexivity.
Qed.

(** ** Inbound: the batch loop *)

Lemma doc_import_opt_run (update : bytes) (h : Heap) (d : LoroDoc)
    (import : list Event -> bytes -> Completion unit) :
  doc (configuration (this h)) = Some d ->
  doc_import d = Some import ->
  doc_import_opt update h = (import (events h) update, logged [DocImport update] h).
Proof.
  intros Hd Hi. unfold doc_import_opt, read_this, bind. simpl.
  rewrite Hd, Hi. reflexivity.
Qed.

Lemma importBatch_run (d : LoroDoc) (import : list Event -> bytes -> Completion unit)
    (updates : list bytes) :
  forall (rest : bytes) (h : Heap),
    doc (configuration (this h)) = Some d ->
    doc_import d = Some import ->
    (forall past u, In u updates -> import past u = Normal tt) ->
    importBatch (List.length updates)
      (List.concat (map Codec.writeVarUint8Array updates) ++ rest) h
    = (Normal tt, logged (map DocImport updates) h).
Proof.
  induction updates as [|u us IH]; intros rest h Hd Hi Hok; simpl.
  - rewrite logged_nil. reflexivity.
  - unfold Codec.reading. rewrite <- app_assoc.
    rewrite CodecFacts.readVarUint8Array_writeVarUint8Array.
    unfold bind. rewrite (doc_import_opt_run u h Hd Hi).
    rewrite Hok by (left; reflexivity).
    rewrite IH; try assumption.
    + rewrite logged_logged. reflexivity.
    + intros past v Hv. apply Hok. right. exact Hv.
Qed.

Lemma imports_DocImport (l : list bytes) : imports (map DocImport l) = l.
Proof. induction l as [|u us IH]; simpl; [|rewrite IH]; reflexivity. Qed.

(** ** Inbound dispatch *)

(** The frame [varstring(documentName) varuint(type) payload] reaches the
    [switch] with [type] and the payload. *)
Lemma onMessage_dispatch (documentName : string) (type : N) (payload : bytes) (h : Heap) :
  onMessage (Codec.writeVarString documentName
             ++ Codec.writeVarUint type ++ payload) h
  = (if (type =? MessageType.Auth)%N then
       perform (ReadAuthMessage payload)
     else if (type =? MessageType.LoroUpdate)%N then
       Codec.reading Codec.readVarUint8Array payload (fun update _ =>
         doc_import_opt update)
     else if (type =? MessageType.LoroSyncBatch)%N then
       Codec.reading Codec.readVarUint payload (fun count decoder =>
         importBatch (N.to_nat count) decoder)
     else if (type =? MessageType.LoroEphemeral)%N then
       Codec.reading Codec.readVarUint8Array payload (fun update _ =>
         store_apply_opt update)
     else ret tt) (logged [Emit "message"] h).
Proof.
  unfold onMessage, Codec.reading.
  rewrite CodecFacts.readVarString_writeVarString.
  unfold bind at 1. unfold perform, modify. simpl.
  rewrite CodecFacts.readVarUint_writeVarUint. reflexivity.
Qed.

(** C5 (amended): Sync batches are imported in order.  On a
    [LoroSyncBatch] frame that carries the count [N] and then [N]
    length-prefixed updates, a provider whose [doc] has an [import] that
    throws on none of these updates calls [doc.import] on each of the [N]
    updates, the i-th update of the frame as the i-th call, and on nothing
    else; bytes after the [N]-th update are not read.  (The tag of
    [LoroSyncBatch] differs from those of the two cases before it in the
    [switch].) *)
Theorem sync_batch_is_imported_in_order
    (h : Heap) (d : LoroDoc) (import : list Event -> bytes -> Completion unit)
    (documentName : string) (updates : list bytes) (rest : bytes) :
  MessageType.LoroSyncBatch <> MessageType.Auth ->
  MessageType.LoroSyncBatch <> MessageType.LoroUpdate ->
  doc (configuration (this h)) = Some d ->
  doc_import d = Some import ->
  (forall past u, In u updates -> import past u = Normal tt) ->
  let data :=
    Codec.writeVarString documentName
    ++ Codec.writeVarUint MessageType.LoroSyncBatch
    ++ Codec.writeVarUint (N.of_nat (List.length updates))
    ++ List.concat (map Codec.writeVarUint8Array updates)
    ++ rest in
  onMessage data h
  = (Normal tt, logged (Emit "message" :: map DocImport updates) h)
  /\ imports (emitted (onMessage data) h) = updates.
Proof.
  intros Hauth Hupdate Hd Hi Hok data.
  assert (Hrun : onMessage data h
            = (Normal tt, logged (Emit "message" :: map DocImport updates) h)).
  { unfold data. rewrite onMessage_dispatch.
    apply N.eqb_neq in Hauth, Hupdate. rewrite Hauth, Hupdate, N.eqb_refl.
    unfold Codec.reading. rewrite CodecFacts.readVarUint_writeVarUint.
    rewrite Nat2N.id.
    rewrite importBatch_run with (d := d) (import := import); try assumption.
    rewrite logged_logged. reflexivity. }
  split; [exact Hrun|].
  erewrite emitted_logged by exact Hrun. simpl. apply imports_DocImport.
Qed.

(** C7 (amended): Frames of other types are ignored.  A frame
    whose type tag is none of [Auth], [LoroUpdate], [LoroSyncBatch],
    [LoroEphemeral] (the tag of [LoroSyncRequest] and every unknown tag
    among them) makes [onMessage] emit its ["message"] event and return
    normally: nothing is imported or applied, nothing is sent, the provider
    is unchanged and no error is raised. *)
Theorem other_types_are_ignored
    (h : Heap) (documentName : string) (type : N) (payload : bytes) :
  type <> MessageType.Auth ->
  type <> MessageType.LoroUpdate ->
  type <> MessageType.LoroSyncBatch ->
  type <> MessageType.LoroEphemeral ->
  onMessage (Codec.writeVarString documentName
             ++ Codec.writeVarUint type ++ payload) h
  = (Normal tt, logged [Emit "message"] h).
Proof.
  intros H1 H2 H3 H4. rewrite onMessage_dispatch.
  apply N.eqb_neq in H1, H2, H3, H4. rewrite H1, H2, H3, H4. reflexivity.
Qed.

(** ** The sync request *)

(** C6: The sync request frame.  [startSync] always returns; while the
    provider is attached it hands exactly one frame to the web socket, and
    none while detached.  The frame is [varstring(documentName)
    varuint(LoroSyncRequest) varstring(versionJSON)], where [versionJSON] is
    [JSON.stringify(doc.oplogVersion())] when [doc] has [oplogVersion] and
    the serialisation does not throw, and the empty string otherwise; read
    back, the frame yields these three fields in this order and nothing
    after them. *)
Theorem sync_request_frame (h : Heap) :
  let c := configuration (this h) in
  let versionJSON :=
    match doc c with
    | Some d =>
        match doc_oplogVersion d with
        | Some oplogVersion =>
            match oplogVersion (events h) with
            | Normal json => json
            | Throw _ => EmptyString
            end
        | None => EmptyString
        end
    | None => EmptyString
    end in
  let frame :=
    Codec.writeVarString (name c)
    ++ Codec.writeVarUint MessageType.LoroSyncRequest
    ++ Codec.writeVarString versionJSON in
  fst (startSync h) = Normal tt
  /\ frames (emitted startSync h)
     = (if _isAttached (this h) then [frame] else [])
  /\ Codec.readVarString frame
     = Some (name c, Codec.writeVarUint MessageType.LoroSyncRequest
                     ++ Codec.writeVarString versionJSON)
  /\ Codec.readVarUint (Codec.writeVarUint MessageType.LoroSyncRequest
                        ++ Codec.writeVarString versionJSON)
     = Some (MessageType.LoroSyncRequest, Codec.writeVarString versionJSON)
  /\ Codec.readVarString (Codec.writeVarString versionJSON)
     = Some (versionJSON, []).
Proof.
  intros c versionJSON frame.
  assert (Hframe : forall v, or_empty v = versionJSON ->
            toUint8Array (LoroSyncRequestMessage (name c) v) = frame).
  { intros v Hv. unfold frame. simpl. rewrite Hv. reflexivity. }
  assert (Hrun : startSync h
            = (Normal tt,
               if _isAttached (this h)
               then logged [Emit "outgoingMessage"; WsSend frame] h
               else h)).
  { rewrite startSync_run, send_run. fold c. rewrite Hframe; [reflexivity|].
    unfold versionJSON.
    destruct (doc c) as [d|]; [|reflexivity].
    destruct (doc_oplogVersion d) as [oplogVersion|]; [|reflexivity].
    destruct (oplogVersion (events h)); [apply or_empty_Some | reflexivity]. }
  split; [rewrite Hrun; reflexivity|].
  split.
  - destruct (_isAttached (this h)) eqn:E.
    + erewrite emitted_logged by exact Hrun. reflexivity.
    + rewrite <- (logged_nil h) in Hrun at 2.
      erewrite emitted_logged by exact Hrun. reflexivity.
  - split; [apply CodecFacts.readVarString_writeVarString|].
    split; [apply CodecFacts.readVarUint_writeVarUint|].
    rewrite <- (app_nil_r (Codec.writeVarString versionJSON)) at 1.
    apply CodecFacts.readVarString_writeVarString.
Qed.

(** ** The force-sync timer *)

(** What a call of [startSync] hands to the web socket. *)
Lemma startSync_sends (h : Heap) :
  exists versionJSON : string,
    startSync h
    = (Normal tt,
       if _isAttached (this h)
       then logged
              [Emit "outgoingMessage";
               WsSend (Codec.writeVarString (name (configuration (this h)))
                       ++ Codec.writeVarUint MessageType.LoroSyncRequest
                       ++ Codec.writeVarString versionJSON)] h
       else h).
Proof.
  rewrite startSync_run, send_run. eexists. reflexivity.
Qed.

Lemma bind_run {S A B} (m : Prog S A) (k : A -> Prog S B) (s s' : S) (a : A) :
  m s = (Normal a, s') -> bind m k s = k a s'.
Proof. intros E. unfold bind. rewrite E. reflexivity. Qed.

(** A log written one call at a time. *)
Lemma log_fold (l : list Event) :
  forall init : list Event,
    fold_left (fun acc e => acc ++ [e]) l init = init ++ l.
Proof.
  induction l as [|e rest IH]; intros init; simpl.
  - rewrite app_nil_r. reflexivity.
  - rewrite IH, <- app_assoc. reflexivity.
Qed.

(** ** [attach] and [detach] *)

Lemma attach_run (h : Heap) :
  attach h
  = if _isAttached (this h) then (Normal tt, h)
    else if has_websocketProvider h
    then (Normal tt,
          {| this := set_isAttached true (this h);
             events := events h ++ attach_log;
             timers := timers h; nextTimer := nextTimer h |})
    else (Throw TypeError, h).
Proof.
  unfold attach, the_websocketProvider, has_websocketProvider, read_this, bind.
  simpl.
  destruct (_isAttached (this h)); [reflexivity|].
  destruct (websocketProvider (configuration (this h))); [|reflexivity].
  rewrite <- (log_fold attach_log). reflexivity.
Qed.

Lemma detach_run (h : Heap) :
  detach h
  = if has_websocketProvider h
    then (Normal tt,
          {| this := set_isAttached false (this h);
             events := events h ++ detach_log;
             timers := timers h; nextTimer := nextTimer h |})
    else (Throw TypeError, h).
Proof.
  unfold detach, the_websocketProvider, has_websocketProvider, read_this, bind.
  simpl.
  destruct (websocketProvider (configuration (this h))); [|reflexivity].
  rewrite <- (log_fold detach_log). reflexivity.
Qed.

(** ** The constructor *)

(** The object, the timers and the log that the constructor leaves,
    whether it returns or throws. *)
Lemma constructor_run (given : PartialConfiguration) (h : Heap) :
  let c := constructed_configuration given in
  let interval := is_interval (forceSyncInterval c) in
  let h1 := snd (new_LoroProvider given h) in
  fst (new_LoroProvider given h)
  = match given_websocketProvider given with
    | Present None => Throw TypeError
    | _ => Normal tt
    end
  /\ configuration (this h1) = c
  /\ manageSocket (this h1) = without_websocketProvider given
  /\ _isAttached (this h1)
     = match given_websocketProvider given with
       | Absent => true
       | Present _ => false
       end
  /\ unsubDoc (this h1) = returned (doc_subscription (doc c))
  /\ unsubEphemeral (this h1) = returned (store_subscription (ephemeralStore c))
  /\ intervals_forceSync (this h1)
     = match interval with Some _ => Some (nextTimer h) | None => None end
  /\ timers h1
     = match interval with
       | Some ms => timers h ++ [(nextTimer h, ms)]
       | None => timers h
       end
  /\ nextTimer h1
     = match interval with
       | Some _ => Pos.succ (nextTimer h)
       | None => nextTimer h
       end
  /\ events h1 = events h ++ constructed_log given (nextTimer h).
Proof.
  destruct given as [n d s w f].
  destruct d as [|[[[[u|]|] i o]|]], s as [|[[[[v|]|] a]|]], w as [|[w|]],
    f as [|[| |[[[|p|p] q]|b|]]];
    repeat split; rewrite <- log_fold; reflexivity.
Qed.

(** C8 (amended): The force-sync timer.  Constructing a provider
    returns normally, unless the configuration holds the key
    [websocketProvider] with [undefined] or [null]: then [attach()] throws a
    [TypeError] out of the constructor, after the steps below.  If
    [forceSyncInterval] is a positive number (15000 when the configuration
    does not give it), the constructor registers one interval with that
    period and stores its handle; every tick of that interval, while it is
    active, runs [startSync], which hands one [LoroSyncRequest] frame for
    the provider's document to the web socket when the provider is attached
    and does nothing while it is detached.  If [forceSyncInterval] is
    [false], no interval is registered and no handle is stored. *)
Theorem force_sync_timer (given : PartialConfiguration) (h : Heap) :
  let h1 := snd (new_LoroProvider given h) in
  let id := nextTimer h in
  fst (new_LoroProvider given h)
  = match given_websocketProvider given with
    | Present None => Throw TypeError
    | _ => Normal tt
    end
  /\ name (configuration (this h1)) = given_name given
  /\ (forall ms,
        spread (given_forceSyncInterval given) (FsNumber (integer 15000))
        = FsNumber ms ->
        positive_number ms = true ->
        timers h1 = timers h ++ [(id, ms)]
        /\ intervals_forceSync (this h1) = Some id)
  /\ (given_forceSyncInterval given = Present FsFalse ->
        timers h1 = timers h
        /\ nextTimer h1 = nextTimer h
        /\ intervals_forceSync (this h1) = None)
  /\ (forall id' h2,
        existsb (fun t => Pos.eqb (fst t) id') (timers h2) = true ->
        tick id' h2 = startSync h2
        /\ fst (tick id' h2) = Normal tt
        /\ (_isAttached (this h2) = true ->
            exists versionJSON : string,
              frames (emitted (tick id') h2)
              = [Codec.writeVarString (name (configuration (this h2)))
                 ++ Codec.writeVarUint MessageType.LoroSyncRequest
                 ++ Codec.writeVarString versionJSON])
        /\ (_isAttached (this h2) = false -> tick id' h2 = (Normal tt, h2)))
  /\ (forall id' h2,
        existsb (fun t => Pos.eqb (fst t) id') (timers h2) = false ->
        tick id' h2 = (Normal tt, h2)).
Proof.
  intros h1 id.
  destruct (constructor_run given h)
    as [Hfst [Hconf [_ [_ [_ [_ [Hhandle [Htimers [Hnext _]]]]]]]]].
  fold h1 in Hconf, Hhandle, Htimers, Hnext. subst id.
  split; [exact Hfst|]. split; [rewrite Hconf; reflexivity|].
  split; [|split; [|split]].
  - intros ms Hms Hpos.
    assert (Htruthy : truthy_number ms = true).
    { destruct ms as [[num den]|[|]|]; simpl in *; try discriminate; auto.
      apply negb_true_iff, Z.eqb_neq. apply Z.ltb_lt in Hpos. lia. }
    unfold constructed_configuration in Hhandle, Htimers. simpl in Hhandle, Htimers.
    rewrite Hms in Hhandle, Htimers. simpl in Hhandle, Htimers.
    rewrite Htruthy in Hhandle, Htimers. split; assumption.
  - intros Hfalse.
    unfold constructed_configuration in Hhandle, Htimers, Hnext.
    simpl in Hhandle, Htimers, Hnext.
    rewrite Hfalse in Hhandle, Htimers, Hnext. repeat split; assumption.
  - intros id' h2 Hactive.
    assert (Htick : tick id' h2 = startSync h2).
    { unfold tick, bind, forceSync. rewrite Hactive. reflexivity. }
    destruct (startSync_sends h2) as [versionJSON Hrun].
    rewrite Htick. split; [reflexivity|].
    split; [rewrite Hrun; reflexivity|]. split.
    + intros Hatt. exists versionJSON. rewrite Hatt in Hrun.
      assert (Hrun' : tick id' h2
                = (Normal tt,
                   logged
                     [Emit "outgoingMessage";
                      WsSend (Codec.writeVarString (name (configuration (this h2)))
                              ++ Codec.writeVarUint MessageType.LoroSyncRequest
                              ++ Codec.writeVarString versionJSON)] h2))
        by (rewrite Htick; exact Hrun).
      erewrite emitted_logged by exact Hrun'. reflexivity.
    + intros Hdet. rewrite Hdet in Hrun. exact Hrun.
  - intros id' h2 Hidle. unfold tick, bind. rewrite Hidle. reflexivity.
Qed.

(** ** [destroy] *)

Lemma unsubscribe_calls_app (s : Subscription) (a b : list Event) :
  unsubscribe_calls s (a ++ b)
  = (unsubscribe_calls s a + unsubscribe_calls s b)%nat.
Proof. unfold unsubscribe_calls. rewrite filter_app, length_app. reflexivity. Qed.

(** [destroy()] completes normally when there is a web socket to detach
    from and with the [TypeError] of [detach()] when there is none; the
    calls before [detach()] are made in both cases. *)
Lemma destroy_run (h : Heap) :
  destroy h
  = (if has_websocketProvider h then Normal tt else Throw TypeError,
     destroyed h (destroyed_log h)).
Proof.
  destruct h as [[[n d s w f] m a ud ue i] ev tm nx].
  destruct i as [id|], ud as [[[|]]|], ue as [[[|]]|], w as [w|];
    unfold destroyed; rewrite <- log_fold; reflexivity.
Qed.

Lemma destroyed_log_unsubscribes (h : Heap) :
  unsubscribe_calls OnDoc (destroyed_log h)
  = match unsubDoc (this h) with Some _ => 1%nat | None => 0%nat end
  /\ unsubscribe_calls OnEphemeral (destroyed_log h)
     = match unsubEphemeral (this h) with Some _ => 1%nat | None => 0%nat end.
Proof.
  unfold destroyed_log.
  destruct (intervals_forceSync (this h)), (unsubDoc (this h)),
    (unsubEphemeral (this h)), (has_websocketProvider h); split; reflexivity.
Qed.

Lemma has_websocketProvider_destroyed (h : Heap) (l : list Event) :
  has_websocketProvider (destroyed h l) = has_websocketProvider h.
Proof.
  unfold destroyed, has_websocketProvider. simpl.
  destruct (websocketProvider (configuration (this h))) eqn:E; simpl;
    rewrite E; reflexivity.
Qed.

Lemma destroyed_destroyed (h : Heap) (a b : list Event) :
  destroyed (destroyed h a) b = destroyed h (a ++ b).
Proof.
  unfold destroyed at 1. rewrite has_websocketProvider_destroyed.
  unfold destroyed. simpl. rewrite app_assoc.
  destruct (intervals_forceSync (this h)) eqn:E, (has_websocketProvider h);
    simpl; rewrite ?E, ?filter_filter; reflexivity.
Qed.

(** Successive calls of a method that acts as [destroy()] does on the
    heaps of [P]. *)
Lemma destroyed_repeatedly (m : M unit) (P : Heap -> Prop) :
  (forall h l, P h -> P (destroyed h l)) ->
  (forall h, P h -> m h = (Normal tt, destroyed h (destroyed_log h))) ->
  forall (n : nat) (h : Heap),
    P h ->
    exists l,
      repeatedly (S n) m h = (Normal tt, destroyed h l)
      /\ unsubscribe_calls OnDoc l
         = match unsubDoc (this h) with Some _ => 1%nat | None => 0%nat end
      /\ unsubscribe_calls OnEphemeral l
         = match unsubEphemeral (this h) with Some _ => 1%nat | None => 0%nat end.
Proof.
  intros Hclosed Hrun. induction n as [|n IH]; intros h Hh.
  - exists (destroyed_log h). split; [|apply destroyed_log_unsubscribes].
    simpl. unfold bind. rewrite (Hrun h Hh). reflexivity.
  - destruct (destroyed_log_unsubscribes h) as [Hdoc Heph].
    destruct (IH (destroyed h (destroyed_log h)) (Hclosed _ _ Hh))
      as [l' [Hrun' [Hdoc' Heph']]].
    exists (destroyed_log h ++ l'). split; [|split].
    + change (repeatedly (S (S n)) m h)
        with (bind m (fun _ => repeatedly (S n) m) h).
      unfold bind at 1. rewrite (Hrun h Hh), Hrun', destroyed_destroyed.
      reflexivity.
    + rewrite unsubscribe_calls_app, Hdoc, Hdoc'.
      unfold destroyed. simpl.
      destruct (has_websocketProvider h); simpl; lia.
    + rewrite unsubscribe_calls_app, Heph, Heph'.
      unfold destroyed. simpl.
      destruct (has_websocketProvider h); simpl; lia.
Qed.

Lemma caught_destroy_run (h : Heap) :
  caught destroy h = (Normal tt, destroyed h (destroyed_log h)).
Proof.
  unfold caught, tryCatch. rewrite destroy_run.
  destruct (has_websocketProvider h); reflexivity.
Qed.

(** C9: [destroy()] is idempotent.  On a provider with a web socket, any
    number of successive [destroy()] calls, at least one, returns normally
    and calls the unsubscribe function stored for the doc subscription
    exactly once if there is one (and never otherwise), likewise the one
    stored for the ephemeral subscription; this holds whether or not the
    functions throw.  A second [destroy()] leaves the timer and subscription
    state as the first left it, and so does every later one.  On a provider
    whose [configuration.websocketProvider] holds no web socket, every
    [destroy()] ends with the [TypeError] of [detach()]; when the caller
    catches it, the same holds of the calls that follow. *)
Theorem destroy_is_idempotent (h : Heap) (n : nat) :
  let once := snd (destroy h) in
  (has_websocketProvider h = true ->
     fst (repeatedly (S n) destroy h) = Normal tt
     /\ unsubscribe_calls OnDoc (emitted (repeatedly (S n) destroy) h)
        = match unsubDoc (this h) with Some _ => 1%nat | None => 0%nat end
     /\ unsubscribe_calls OnEphemeral (emitted (repeatedly (S n) destroy) h)
        = match unsubEphemeral (this h) with Some _ => 1%nat | None => 0%nat end
     /\ lifecycle (snd (destroy once)) = lifecycle once
     /\ lifecycle (snd (repeatedly (S n) destroy h)) = lifecycle once)
  /\ (has_websocketProvider h = false ->
     fst (destroy h) = Throw TypeError
     /\ fst (destroy once) = Throw TypeError
     /\ fst (repeatedly (S n) (caught destroy) h) = Normal tt
     /\ unsubscribe_calls OnDoc (emitted (repeatedly (S n) (caught destroy)) h)
        = match unsubDoc (this h) with Some _ => 1%nat | None => 0%nat end
     /\ unsubscribe_calls OnEphemeral
          (emitted (repeatedly (S n) (caught destroy)) h)
        = match unsubEphemeral (this h) with Some _ => 1%nat | None => 0%nat end
     /\ lifecycle (snd (destroy once)) = lifecycle once
     /\ lifecycle (snd (repeatedly (S n) (caught destroy) h)) = lifecycle once).
Proof.
  intros once.
  assert (Honce : once = destroyed h (destroyed_log h))
    by (unfold once; rewrite destroy_run; reflexivity).
  assert (Htwice : lifecycle (snd (destroy once)) = lifecycle once).
  { rewrite destroy_run, Honce. simpl. rewrite destroyed_destroyed.
    unfold lifecycle, destroyed. simpl.
    destruct (intervals_forceSync (this h)), (has_websocketProvider h);
      reflexivity. }
  assert (Hlife : forall l, lifecycle (destroyed h l) = lifecycle once).
  { intros l. rewrite Honce. reflexivity. }
  split; intros Hws.
  - assert (Hall : exists l,
              repeatedly (S n) destroy h = (Normal tt, destroyed h l)
              /\ unsubscribe_calls OnDoc l
                 = match unsubDoc (this h) with Some _ => 1%nat | None => 0%nat end
              /\ unsubscribe_calls OnEphemeral l
                 = match unsubEphemeral (this h) with
                   | Some _ => 1%nat
                   | None => 0%nat
                   end).
    { apply destroyed_repeatedly
        with (P := fun h0 => has_websocketProvider h0 = true).
      - intros h0 l0 H0. rewrite has_websocketProvider_destroyed. exact H0.
      - intros h0 H0. rewrite destroy_run, H0. reflexivity.
      - exact Hws. }
    destruct Hall as [l [Hrun [Hdoc Heph]]].
    + assert (Hemitted : emitted (repeatedly (S n) destroy) h = l)
        by (apply events_emitted_app; rewrite Hrun; reflexivity).
      split; [rewrite Hrun; reflexivity|].
      split; [rewrite Hemitted; exact Hdoc|].
      split; [rewrite Hemitted; exact Heph|].
      split; [exact Htwice|]. rewrite Hrun. apply Hlife.
  - assert (Hall : exists l,
              repeatedly (S n) (caught destroy) h = (Normal tt, destroyed h l)
              /\ unsubscribe_calls OnDoc l
                 = match unsubDoc (this h) with Some _ => 1%nat | None => 0%nat end
              /\ unsubscribe_calls OnEphemeral l
                 = match unsubEphemeral (this h) with
                   | Some _ => 1%nat
                   | None => 0%nat
                   end).
    { apply destroyed_repeatedly with (P := fun _ => True).
      - intros; exact I.
      - intros h0 _. apply caught_destroy_run.
      - exact I. }
    destruct Hall as [l [Hrun [Hdoc Heph]]].
    + assert (Hemitted : emitted (repeatedly (S n) (caught destroy)) h = l)
        by (apply events_emitted_app; rewrite Hrun; reflexivity).
      split; [rewrite destroy_run, Hws; reflexivity|].
      split; [rewrite destroy_run, Honce, has_websocketProvider_destroyed, Hws;
              reflexivity|].
      split; [rewrite Hrun; reflexivity|].
      split; [rewrite Hemitted; exact Hdoc|].
      split; [rewrite Hemitted; exact Heph|].
      split; [exact Htwice|]. rewrite Hrun. apply Hlife.
Qed.

End WithTags.

(** ** Instances on the sample providers *)

Import Samples.

(** C5 (amended) on a batch of two updates followed by a stray byte. *)
Lemma sync_batch_of_two_updates :
  imports (emitted (onMessage
             [x01; x64; x0b; x02; x01; x05; x02; x06; x07; xff])
           attached_provider)
  = [[x05]; [x06; x07]].
Proof.
  refine (proj2 (@sync_batch_is_imported_in_order tags attached_provider
                   client_doc (fun _ _ => Normal tt) "d" [[x05]; [x06; x07]] [xff]
                   _ _ _ _ _)).
  - discriminate.
  - discriminate.
  - reflexivity.
  - reflexivity.
  - reflexivity.
Defined.

(** C5, as the claim words it, fails: the frame below is a [LoroSyncBatch]
    frame for the document "d" with the count 2 and the two updates [],
    the empty update, and [06 07].  The doc of [picky_provider] rejects the
    empty update; [onMessage] then throws, and the second update of the
    batch is never imported. *)
Lemma sync_batch_with_a_refused_update :
  Codec.readVarString [x01; x64; x0b; x02; x00; x02; x06; x07]
  = Some ("d"%string, [x0b; x02; x00; x02; x06; x07])
  /\ Codec.readVarUint [x0b; x02; x00; x02; x06; x07]
     = Some (MessageType.LoroSyncBatch, [x02; x00; x02; x06; x07])
  /\ fst (onMessage [x01; x64; x0b; x02; x00; x02; x06; x07] picky_provider)
     = Throw (ForeignError "decode error")
  /\ imports (emitted (onMessage [x01; x64; x0b; x02; x00; x02; x06; x07])
               picky_provider)
     = [[]]
  /\ ~ In [x06; x07]
         (imports (emitted (onMessage [x01; x64; x0b; x02; x00; x02; x06; x07])
                     picky_provider)).
Proof.
  split; [reflexivity|].
  split; [reflexivity | split; [reflexivity | split; [reflexivity|]]].
  intros [E|[]]; discriminate E.
Qed.

(** C7, as the claim words it, fails: 99 is not the tag of any known
    message kind, and [onMessage] returns normally on a frame of that type,
    having done nothing but emit ["message"]. *)
Lemma unknown_tag_is_not_an_error :
  MessageType.known 99 = false
  /\ onMessage [x01; x64; x63; x02; x01; x05] attached_provider
     = (Normal tt, logged [Emit "message"] attached_provider).
Proof. split; reflexivity. Qed.

(** C7 (amended) on a [LoroSyncRequest] frame that reaches a provider. *)
Lemma sync_request_is_ignored_by_the_provider :
  onMessage [x01; x64; x0a; x02; x7b; x7d] attached_provider
  = (Normal tt, logged [Emit "message"] attached_provider).
Proof.
  apply (@other_types_are_ignored tags attached_provider "d" 10 [x02; x7b; x7d]);
    discriminate.
Defined.

(** C8, as the claim words it, fails: the provider below was constructed
    with a shared web socket and the default [forceSyncInterval]; its
    interval is active, and a tick sends nothing, because the provider has
    not been attached. *)
Lemma tick_of_a_detached_provider :
  given_forceSyncInterval shared_config = Absent
  /\ timers detached_provider = [(1%positive, integer 15000)]
  /\ _isAttached (this detached_provider) = false
  /\ tick 1 detached_provider = (Normal tt, detached_provider)
  /\ frames (emitted (tick 1) detached_provider) = [].
Proof. repeat split. Qed.

(** C8 (amended) on the sample provider with the default interval. *)
Lemma force_sync_timer_by_default :
  timers detached_provider = [(1%positive, integer 15000)]
  /\ intervals_forceSync (this detached_provider) = Some 1%positive
  /\ tick 1 attached_provider = startSync attached_provider
  /\ tick 1 detached_provider = (Normal tt, detached_provider).
Proof.
  destruct (@force_sync_timer tags shared_config boot)
    as [_ [_ [Hregistered [_ [Htick _]]]]].
  destruct (Hregistered (integer 15000) eq_refl eq_refl) as [Htimers Hhandle].
  split; [exact Htimers | split; [exact Hhandle|]].
  split.
  - destruct (Htick 1%positive attached_provider eq_refl) as [Hsync _].
    exact Hsync.
  - destruct (Htick 1%positive detached_provider eq_refl) as [_ [_ [_ Hnothing]]].
    exact (Hnothing eq_refl).
Defined.

(** C9 on the sample providers: three [destroy()] calls on the attached
    provider, whose ephemeral unsubscribe function throws, and three on the
    provider that lost its web socket. *)
Lemma destroy_three_times :
  (fst (repeatedly 3 destroy attached_provider) = Normal tt
   /\ unsubscribe_calls OnDoc (emitted (repeatedly 3 destroy) attached_provider)
      = 1%nat
   /\ unsubscribe_calls OnEphemeral
        (emitted (repeatedly 3 destroy) attached_provider)
      = 1%nat)
  /\ (fst (destroy socketless_provider) = Throw TypeError
      /\ unsubscribe_calls OnDoc
           (emitted (repeatedly 3 (caught destroy)) socketless_provider)
         = 1%nat
      /\ unsubscribe_calls OnEphemeral
           (emitted (repeatedly 3 (caught destroy)) socketless_provider)
         = 1%nat).
Proof.
  split.
  - destruct (proj1 (destroy_is_idempotent attached_provider 2) eq_refl)
      as [Hfst [Hdoc [Heph _]]].
    split; [exact Hfst | split; [exact Hdoc | exact Heph]].
  - destruct (proj2 (destroy_is_idempotent socketless_provider 2) eq_refl)
      as [Hfst [_ [_ [Hdoc [Heph _]]]]].
    split; [exact Hfst | split; [exact Hdoc | exact Heph]].
Defined.

End LoroProviderFacts.

(* ===================================================================== *)
(** * More about the server document                                      *)
(* ===================================================================== *)

Module MapFacts.

Section Lookup.
Context {V : Type}.
Implicit Types m : JsMap.t V.

Ltac eqb_cases :=
  repeat match goal with
         | |- context [Nat.eqb ?a ?b] =>
             destruct (Nat.eqb_spec a b); try subst; simpl
         end;
  try congruence; try reflexivity.

Lemma get_set m k k' v :
  JsMap.get (JsMap.set m k v) k'
  = if Nat.eqb k' k then Some v else JsMap.get m k'.
Proof.
  induction m as [|[k0 v0] rest IH]; simpl.
  - eqb_cases.
  - destruct (Nat.eqb_spec k0 k); try subst; simpl.
    + eqb_cases.
    + rewrite IH. eqb_cases.
Qed.

Lemma get_delete m k k' :
  JsMap.get (JsMap.delete m k) k'
  = if Nat.eqb k' k then None else JsMap.get m k'.
Proof.
  unfold JsMap.delete.
  induction m as [|[k0 v0] rest IH]; simpl.
  - eqb_cases.
  - destruct (Nat.eqb_spec k0 k); try subst; simpl; rewrite IH; eqb_cases.
Qed.




Lemma delete_absent m k :
  JsMap.has m k = false -> JsMap.delete m k = m.
Proof.
  unfold JsMap.has, JsMap.delete.
  induction m as [|[k0 v0] rest IH]; simpl; intros Habsent; [reflexivity|].
  destruct (Nat.eqb k0 k); [discriminate|]. simpl.
  rewrite IH by exact Habsent. reflexivity.
Qed.

End Lookup.

End MapFacts.

Module DocumentMore.
Import Document DocumentFacts.

Section WithEngine.
Context {R VV : Type} `{LoroDocLike R VV} `{Truthy VV} `{MessageType.Table}.

Implicit Types (h : Heap R) (d : Document R).

(** ** Registering connections *)

(** X1: [hasConnection] follows the web sockets, not the connection
    objects.  After [addConnection(c)] it answers [true] for every
    connection on the web socket of [c] and as before for the others; after
    [removeConnection(c)] it answers [false] for every connection on that
    web socket and as before for the others. *)
Theorem hasConnection_follows_the_socket (h : Heap R) (c c' : Connection) :
  fst (hasConnection c' (snd (addConnection c h)))
  = Normal (Nat.eqb (webSocket c') (webSocket c)
            || JsMap.has (connections (this h)) (webSocket c'))
  /\ fst (hasConnection c' (snd (removeConnection c h)))
     = Normal (negb (Nat.eqb (webSocket c') (webSocket c))
               && JsMap.has (connections (this h)) (webSocket c')).
Proof.
  split.
  - unfold hasConnection, read_this. simpl. unfold JsMap.has.
    rewrite MapFacts.get_set.
    destruct (Nat.eqb (webSocket c') (webSocket c)); reflexivity.
  - unfold hasConnection, read_this. simpl. unfold JsMap.has.
    rewrite MapFacts.get_delete.
    destruct (Nat.eqb (webSocket c') (webSocket c)); reflexivity.
Qed.

Lemma connection_list_app (m1 m2 : JsMap.t ConnectionData) d :
  connections d = m1 ++ m2 ->
  connection_list d
  = map connection (JsMap.values m1) ++ map connection (JsMap.values m2).
Proof.
  intros E. unfold connection_list, JsMap.values. rewrite E, !map_app.
  reflexivity.
Qed.


(** The connections that remain when a web socket is deleted. *)
Lemma connection_list_delete d (w : WebSocket) :
  connections_wf d ->
  map connection (JsMap.values (JsMap.delete (connections d) w))
  = filter (fun x => negb (Nat.eqb (webSocket x) w)) (connection_list d).
Proof.
  intros [_ Hkeyed]. unfold connection_list, JsMap.values, JsMap.delete.
  induction Hkeyed as [|[k0 v0] rest Hx Hrest IH]; simpl; [reflexivity|].
  simpl in Hx. subst k0.
  destruct (Nat.eqb (webSocket (connection v0)) w); simpl; rewrite IH;
    reflexivity.
Qed.

(** X3: a removed connection is out of every later broadcast.  On a
    document whose connection map is as [addConnection] builds it,
    [removeConnection(c)] leaves the other connections registered, in their
    order, and neither [handleLoroUpdate] nor [broadcastLoroEphemeral]
    called afterwards sends anything to [c], whatever the origin. *)
Theorem removed_connection_receives_nothing
    (h : Heap R) (c : Connection) (update : bytes) (origin : option Connection) :
  connections_wf (this h) ->
  let h1 := snd (removeConnection c h) in
  connection_list (this h1)
  = filter (fun x => negb (Nat.eqb (webSocket x) (webSocket c)))
      (connection_list (this h))
  /\ ~ In c (map fst (sends (emitted (handleLoroUpdate update origin) h1)))
  /\ ~ In c (map fst (sends (emitted (broadcastLoroEphemeral update origin) h1))).
Proof.
  intros Hwf h1.
  assert (Hlist : connection_list (this h1)
            = filter (fun x => negb (Nat.eqb (webSocket x) (webSocket c)))
                (connection_list (this h))).
  { unfold h1. simpl. apply (connection_list_delete _ Hwf). }
  assert (Hgone : ~ In c (connection_list (this h1))).
  { rewrite Hlist. intros Hin. apply filter_In in Hin.
    destruct Hin as [_ Hne]. rewrite Nat.eqb_refl in Hne. discriminate. }
  assert (Hfst : forall (f : bytes) (l : list Connection),
             map fst (map (fun x => (x, f)) l) = l).
  { intros f l. rewrite map_map. simpl. apply map_id. }
  split; [exact Hlist|]. split.
  - rewrite handleLoroUpdate_sends, Hfst. intros Hin.
    apply filter_In in Hin. apply Hgone, Hin.
  - rewrite broadcastLoroEphemeral_sends, Hfst. intros Hin.
    apply filter_In in Hin. apply Hgone, Hin.
Qed.

(** ** Installing a replica *)

(** The loop of [setLoroDoc] on a document that holds the replica [r]. *)
Lemma replay_run (updates : list bytes) :
  forall (r : R) d (l : list Effect),
    forEach updates (fun update =>
      tryCatch (on_loroDoc (import update)) (fun _ => ret tt))
      {| this := set_loroDoc (Some r) d; effects := l |}
    = (Normal tt,
       {| this := set_loroDoc (Some (replay updates r)) d; effects := l |}).
Proof.
  induction updates as [|u us IH]; intros r d l; [reflexivity|].
  change (replay (u :: us) r) with (replay us (snd (import u r))).
  simpl. unfold bind, tryCatch, on_loroDoc. simpl.
  destruct (import u r) as [[[]|e] r']; simpl; exact (IH r' d l).
Qed.

Lemma setLoroDoc_run (r : R) h :
  setLoroDoc (Some r) h
  = (Normal tt,
     {| this := set_loroDoc (Some (replay (loroUpdates (this h)) r)) (this h);
        effects := effects h |}).
Proof.
  unfold setLoroDoc, update_this, modify, read_this, bind, when. simpl.
  destruct (loroUpdates (this h)) as [|u us] eqn:E; [reflexivity|].
  replace (0 <? Z.of_nat (List.length (u :: us)))%Z with true
    by (symmetry; apply Z.ltb_lt; simpl; lia).
  apply replay_run.
Qed.

(** X4: [setLoroDoc] replays the stored updates.  [setLoroDoc(r)] always
    returns; it leaves in the document the replica [r] after [import] of
    every stored update, in the order in which they were stored; imports
    that throw are passed over in silence (nothing is logged, no frame is
    sent), and the stored updates stay as they are.  [setLoroDoc(null)]
    removes the replica and imports nothing. *)
Theorem setLoroDoc_replays_the_stored_updates (h : Heap R) (r : R) :
  let h1 := snd (setLoroDoc (Some r) h) in
  fst (setLoroDoc (Some r) h) = Normal tt
  /\ loroDoc (this h1) = Some (replay (loroUpdates (this h)) r)
  /\ loroUpdates (this h1) = loroUpdates (this h)
  /\ connections (this h1) = connections (this h)
  /\ effects h1 = effects h
  /\ setLoroDoc None h
     = (Normal tt, {| this := set_loroDoc None (this h); effects := effects h |}).
Proof.
  intros h1. unfold h1. rewrite setLoroDoc_run. simpl.
  repeat split.
Qed.

(** ** The stored updates as a log *)

Lemma same_updates_refl h : same_updates h h.
Proof. reflexivity. Qed.

Lemma same_updates_trans h1 h2 h3 :
  same_updates h1 h2 -> same_updates h2 h3 -> same_updates h1 h3.
Proof. unfold same_updates. congruence. Qed.

Lemma on_loroDoc_same_updates {A} (call : Prog R A) :
  preserves (@same_updates R) (on_loroDoc call).
Proof.
  intros h. unfold on_loroDoc, same_updates.
  destruct (loroDoc (this h)); [destruct (call r)|]; reflexivity.
Qed.

Ltac keeps_updates :=
  repeat first
    [ exact same_updates_refl
    | exact same_updates_trans
    | apply JsFacts.preserves_bind
    | apply JsFacts.preserves_tryCatch
    | apply JsFacts.preserves_when
    | apply JsFacts.preserves_forEach
    | apply JsFacts.preserves_ret
    | apply on_loroDoc_same_updates
    | match goal with
      | |- forall _, preserves _ _ => intro
      | |- preserves _ (match ?x with _ => _ end) => destruct x
      | |- preserves _ (if ?x then _ else _) => destruct x
      | |- preserves _ (perform _) => intros ?; reflexivity
      | |- preserves _ (read_this _) => intros ?; reflexivity
      | |- preserves _ (update_this _) => intros ?; reflexivity
      end ].

Lemma handleLoroUpdate_loroUpdates (update : bytes) (origin : option Connection) h :
  loroUpdates (this (snd (handleLoroUpdate update origin h)))
  = loroUpdates (this h) ++ [update].
Proof.
  destruct (loroDoc (this h)) as [r|] eqn:E.
  - destruct (import update r) as [[[]|e] r'] eqn:Himport.
    + rewrite (handleLoroUpdate_imported _ _ _ E Himport). reflexivity.
    + rewrite (handleLoroUpdate_import_failed _ _ _ E Himport). reflexivity.
  - rewrite (handleLoroUpdate_without_replica _ _ _ E). reflexivity.
Qed.

Lemma call_loroUpdates (c : Call R VV) h :
  loroUpdates (this (snd (call c h))) = loroUpdates (this h) ++ handled [c].
Proof.
  assert (Hsame : forall (m : M R unit), preserves (@same_updates R) m ->
            loroUpdates (this (snd (m h))) = loroUpdates (this h) ++ []).
  { intros m Hm. rewrite app_nil_r. apply Hm. }
  destruct c; unfold call; simpl handled.
  - apply Hsame. unfold setLoroDoc. keeps_updates.
  - apply Hsame. unfold addConnection. keeps_updates.
  - apply Hsame. unfold removeConnection, getClients. keeps_updates.
  - apply Hsame. unfold addDirectConnection. keeps_updates.
  - apply Hsame. unfold removeDirectConnection. keeps_updates.
  - apply handleLoroUpdate_loroUpdates.
  - apply Hsame. unfold discard, exportLoroUpdates. keeps_updates.
  - apply Hsame. unfold broadcastLoroEphemeral, getConnections. keeps_updates.
  - apply Hsame. unfold destroy. keeps_updates.
Qed.

Lemma handled_app (a b : list (Call R VV)) : handled (a ++ b) = handled a ++ handled b.
Proof. unfold handled. apply flat_map_app. Qed.

Lemma after_loroUpdates (cs : list (Call R VV)) :
  forall h, loroUpdates (this (after cs h)) = loroUpdates (this h) ++ handled cs.
Proof.
  induction cs as [|c rest IH]; intros h; simpl after.
  - simpl. rewrite app_nil_r. reflexivity.
  - rewrite IH, call_loroUpdates.
    change (c :: rest) with ([c] ++ rest).
    rewrite handled_app, app_assoc. reflexivity.
Qed.

(** X5: the stored updates are an append-only log.  Over any sequence of
    method calls, [loroUpdates] grows by exactly the updates that were
    handed to [handleLoroUpdate], in call order; no other method
    (ephemeral broadcasts, exports, installing a replica, connection
    changes, [destroy]) adds, drops or reorders an entry.  On a new
    document it is the list of those updates, and what was stored at one
    time is a prefix of what is stored later. *)
Theorem loroUpdates_is_an_append_only_log
    (documentName : string) (cs later : list (Call R VV)) (h : Heap R) :
  loroUpdates (this (after cs h)) = loroUpdates (this h) ++ handled cs
  /\ loroUpdates (this (after cs (fresh documentName))) = handled cs
  /\ loroUpdates (this (after (cs ++ later) h))
     = loroUpdates (this (after cs h)) ++ handled later.
Proof.
  split; [apply after_loroUpdates|]. split.
  - rewrite after_loroUpdates. reflexivity.
  - rewrite !after_loroUpdates, handled_app, app_assoc. reflexivity.
Qed.

Lemma replay_app (a b : list bytes) (r : R) :
  replay (a ++ b) r = replay b (replay a r).
Proof. unfold replay. apply fold_left_app. Qed.

(** X6: a replica may be installed late.  Installing the replica [r] after
    [handleLoroUpdate(u)] leaves the same replica and the same stored
    updates as installing it before: in both orders the replica is [r]
    after [import] of all stored updates and then of [u], whatever replica
    the document held before. *)
Theorem replica_may_be_installed_late
    (h : Heap R) (r : R) (update : bytes) (origin : option Connection) :
  let late := snd (setLoroDoc (Some r) (snd (handleLoroUpdate update origin h))) in
  let early := snd (handleLoroUpdate update origin (snd (setLoroDoc (Some r) h))) in
  loroDoc (this late) = Some (replay (loroUpdates (this h) ++ [update]) r)
  /\ loroDoc (this early) = loroDoc (this late)
  /\ loroUpdates (this early) = loroUpdates (this late)
  /\ loroUpdates (this late) = loroUpdates (this h) ++ [update].
Proof.
  intros late early.
  assert (Hlate : loroDoc (this late)
            = Some (replay (loroUpdates (this h) ++ [update]) r)).
  { unfold late. rewrite setLoroDoc_run. simpl.
    rewrite handleLoroUpdate_loroUpdates. reflexivity. }
  assert (Hearly : loroDoc (this early)
            = Some (replay (loroUpdates (this h) ++ [update]) r)).
  { unfold early. rewrite setLoroDoc_run.
    destruct (import update (replay (loroUpdates (this h)) r))
      as [[[]|e] r'] eqn:Himport.
    - erewrite handleLoroUpdate_imported by (simpl; eauto).
      simpl. rewrite replay_app. unfold replay at 1. simpl.
      fold (replay (loroUpdates (this h)) r). rewrite Himport. reflexivity.
    - erewrite handleLoroUpdate_import_failed by (simpl; eauto).
      simpl. rewrite replay_app. unfold replay at 1. simpl.
      fold (replay (loroUpdates (this h)) r). rewrite Himport. reflexivity. }
  split; [exact Hlate|]. split; [congruence|].
  unfold early, late.
  rewrite handleLoroUpdate_loroUpdates, !setLoroDoc_run. simpl.
  rewrite handleLoroUpdate_loroUpdates. split; reflexivity.
Qed.

(** ** Serving updates without a replica *)

Lemma exportLoroUpdates_without_replica (versionVector : option VV) h :
  loroDoc (this h) = None ->
  exportLoroUpdates versionVector h = (Normal (loroUpdates (this h)), h).
Proof.
  intros E. unfold exportLoroUpdates, read_this, bind. simpl.
  repeat (rewrite E; simpl). destruct versionVector; destruct h; reflexivity.
Qed.

Lemma call_keeps_no_replica (c : Call R VV) h :
  installs_no_replica [c] = true ->
  loroDoc (this h) = None ->
  loroDoc (this (snd (call c h))) = None.
Proof.
  intros Hc E. destruct c as [[r|]| | | | | | | |]; unfold call;
    try discriminate Hc.
  - unfold setLoroDoc, update_this, modify, read_this, bind, when. reflexivity.
  - exact E.
  - exact E.
  - exact E.
  - unfold removeDirectConnection, read_this, bind, when. simpl.
    destruct (0 <? _)%Z; exact E.
  - rewrite (handleLoroUpdate_without_replica _ _ _ E). exact E.
  - unfold discard, bind.
    rewrite (exportLoroUpdates_without_replica _ _ E). exact E.
  - rewrite broadcastLoroEphemeral_run. exact E.
  - exact E.
Qed.

(** X7: without a replica the document serves its log.  If no call
    installed a replica, then after any sequence of calls on a new document
    [exportLoroUpdates] returns, for every version vector and for none,
    exactly the updates that were handed to [handleLoroUpdate], in call
    order, and changes nothing. *)
Theorem without_replica_the_log_is_served
    (documentName : string) (cs : list (Call R VV)) (versionVector : option VV) :
  installs_no_replica cs = true ->
  let h := after cs (fresh documentName) in
  exportLoroUpdates versionVector h = (Normal (handled cs), h).
Proof.
  intros Hcs h.
  assert (Hnone : forall cs (h0 : Heap R),
             installs_no_replica cs = true -> loroDoc (this h0) = None ->
             loroDoc (this (after cs h0)) = None).
  { clear. induction cs as [|c rest IH]; intros h0 Hcs E; [exact E|].
    simpl in Hcs. apply andb_true_iff in Hcs. destruct Hcs as [Hc Hrest].
    simpl. apply IH; [exact Hrest|].
    apply call_keeps_no_replica; [simpl; rewrite Hc; reflexivity | exact E]. }
  rewrite exportLoroUpdates_without_replica
    by (apply Hnone; [exact Hcs | reflexivity]).
  unfold h at 1. rewrite after_loroUpdates. reflexivity.
Qed.

End WithEngine.

(** ** Instances on the sample documents *)

Import Samples.


(** X3 on the sample room: [bob] leaves. *)
Lemma bob_leaves_the_room :
  connections_wf (this room)
  /\ connection_list (this (snd (removeConnection bob room))) = [alice; carol]
  /\ ~ In bob (map fst (sends (emitted (handleLoroUpdate [x07] (Some alice))
                                 (snd (removeConnection bob room))))).
Proof.
  pose proof (reachable_connections_wf (R := Replica) (VV := nat) "d"
                [CallSetLoroDoc (Some []); CallAddConnection alice;
                 CallAddConnection bob; CallAddConnection carol]) as Hwf.
  destruct (removed_connection_receives_nothing
              room bob [x07] (Some alice) Hwf) as [Hlist [Hupdate _]].
  split; [exact Hwf | split; [exact Hlist | exact Hupdate]].
Defined.

(** X7 on a new document that was handed two updates between other calls. *)
Lemma log_of_a_document_without_replica :
  fst (exportLoroUpdates (Some 0%nat)
         (after [CallAddConnection alice;
                 CallHandleLoroUpdate [x07] (Some alice);
                 CallBroadcastLoroEphemeral [x01] None;
                 CallHandleLoroUpdate [x08; x09] None]
            (fresh (R := Replica) "d")))
  = Normal [[x07]; [x08; x09]].
Proof.
  rewrite (without_replica_the_log_is_served (R := Replica) "d"
             [CallAddConnection alice;
              CallHandleLoroUpdate [x07] (Some alice);
              CallBroadcastLoroEphemeral [x01] None;
              CallHandleLoroUpdate [x08; x09] None]
             (Some 0%nat) eq_refl).
  reflexivity.
Defined.

End DocumentMore.

(* ===================================================================== *)
(** * More about the client provider                                      *)
(* ===================================================================== *)

Module LoroProviderMore.
Import LoroProvider LoroProviderFacts.

Section WithTags.
Context `{MessageType.Table}.

(** ** [attach] and [detach] *)

(** X8: [attach()] is guarded, [detach()] is not.  On a provider with a web
    socket, [attach()] on a detached provider registers the six listeners
    on the web socket, attaches and sets the flag; a second [attach()] does
    nothing at all.  [detach()] removes the six listeners and detaches the
    web socket every time it is called, also on a provider that is not
    attached; it always leaves the flag cleared and never touches timers or
    subscriptions.  On a provider whose [configuration.websocketProvider]
    holds no web socket, [attach()] on a detached provider and every
    [detach()] throw a [TypeError] and change nothing. *)
Theorem attach_is_guarded_and_detach_is_not (h : Heap) :
  let on := snd (attach h) in
  let off := snd (detach h) in
  (has_websocketProvider h = true ->
     fst (attach h) = Normal tt
     /\ fst (detach h) = Normal tt
     /\ _isAttached (this on) = true
     /\ attach on = (Normal tt, on)
     /\ (_isAttached (this h) = false ->
         emitted attach h
         = [WsOn "connect"; WsOn "status"; WsOn "open"; WsOn "close";
            WsOn "disconnect"; WsOn "destroy"; WsAttach])
     /\ _isAttached (this off) = false
     /\ emitted detach h
        = [WsOff "connect"; WsOff "status"; WsOff "open"; WsOff "close";
           WsOff "disconnect"; WsOff "destroy"; WsDetach]
     /\ emitted detach off = emitted detach h
     /\ lifecycle off
        = {| active_timers := timers h;
             forceSync_handle := intervals_forceSync (this h);
             doc_unsubscribe := unsubDoc (this h);
             ephemeral_unsubscribe := unsubEphemeral (this h);
             attached := false |})
  /\ (has_websocketProvider h = false ->
      attach h
      = (if _isAttached (this h) then Normal tt else Throw TypeError, h)
      /\ detach h = (Throw TypeError, h)).
Proof.
  intros on off. split; intros Hws.
  - assert (Hon : _isAttached (this on) = true).
    { unfold on. rewrite attach_run, Hws.
      destruct (_isAttached (this h)) eqn:E; [exact E | reflexivity]. }
    assert (Hws_on : has_websocketProvider on = true).
    { unfold on. rewrite attach_run, Hws.
      destruct (_isAttached (this h)); exact Hws. }
    assert (Hdetach : forall h0, has_websocketProvider h0 = true ->
              emitted detach h0 = detach_log).
    { intros h0 H0. apply events_emitted_app. rewrite detach_run, H0.
      reflexivity. }
    assert (Hws_off : has_websocketProvider off = true).
    { unfold off. rewrite detach_run, Hws. exact Hws. }
    split; [rewrite attach_run, Hws; destruct (_isAttached (this h)); reflexivity|].
    split; [rewrite detach_run, Hws; reflexivity|].
    split; [exact Hon|]. split; [rewrite attach_run, Hon; reflexivity|].
    split.
    + intros Hoff. apply events_emitted_app. rewrite attach_run, Hoff, Hws.
      reflexivity.
    + rewrite (Hdetach off Hws_off), (Hdetach h Hws).
      unfold off. rewrite detach_run, Hws. repeat split.
  - split.
    + rewrite attach_run, Hws. destruct (_isAttached (this h)); reflexivity.
    + rewrite detach_run, Hws. reflexivity.
Qed.

(** ** The constructor *)

Lemma run_of_parts {A} (m : M A) (h : Heap) (a : A) :
  fst (m h) = Normal a -> m h = (Normal a, snd (m h)).
Proof. destruct (m h) as [c s]. simpl. intros ->. reflexivity. Qed.

Lemma onLocalUpdate_run (update : bytes) (h : Heap) :
  onLocalUpdate update h
  = (Normal tt,
     if _isAttached (this h)
     then logged
            [Emit "outgoingMessage";
             WsSend (toUint8Array
                       (LoroUpdateMessage (name (configuration (this h))) update))]
            h
     else h).
Proof. exact (send_run _ h). Qed.

Lemma onLocalEphemeralUpdate_run (update : bytes) (h : Heap) :
  onLocalEphemeralUpdate update h
  = (Normal tt,
     if _isAttached (this h)
     then logged
            [Emit "outgoingMessage";
             WsSend (toUint8Array
                       (LoroEphemeralMessage (name (configuration (this h))) update))]
            h
     else h).
Proof. exact (send_run _ h). Qed.

(** The log of the constructor. *)
Lemma constructor_emitted (given : PartialConfiguration) (h : Heap) :
  emitted (new_LoroProvider given) h = constructed_log given (nextTimer h).
Proof.
  apply events_emitted_app.
  destruct (constructor_run given h) as [_ [_ [_ [_ [_ [_ [_ [_ [_ Hlog]]]]]]]]].
  exact Hlog.
Qed.

(** The [setInterval] call of the constructor. *)
Lemma constructed_log_intervals (given : PartialConfiguration) (id : positive) :
  intervals_set (constructed_log given id)
  = match is_interval (forceSyncInterval (constructed_configuration given)) with
    | Some ms => [(id, ms)]
    | None => []
    end
  /\ intervals_cleared (constructed_log given id) = [].
Proof.
  unfold constructed_log.
  destruct (without_websocketProvider given),
    (doc_subscription (doc (constructed_configuration given))),
    (store_subscription (ephemeralStore (constructed_configuration given))),
    (is_interval (forceSyncInterval (constructed_configuration given))),
    (given_websocketProvider given); split; reflexivity.
Qed.

Lemma active_registered (h : Heap) (l : list (positive * Number))
    (id : positive) (ms : Number) :
  timers h = l ++ [(id, ms)] -> active id h = true.
Proof.
  intros E. unfold active. rewrite E, existsb_app. simpl.
  rewrite Pos.eqb_refl, orb_true_r. reflexivity.
Qed.

(** X9: the constructor and the [websocketProvider] key.  Without the key
    the provider creates a web socket, manages it and is attached when the
    constructor returns, so a local update is sent at once.  With a web
    socket under the key it keeps that one, creates none, does not manage
    it and is left detached, so a local update is dropped until [attach()]
    is called.  With the key present but holding [undefined] or [null] the
    constructor creates a web socket, which the spread then overwrites, and
    [attach()] throws a [TypeError] out of the constructor; the
    subscriptions and the interval made before stay in place. *)
Theorem constructor_attaches_when_it_owns_the_socket
    (given : PartialConfiguration) (h : Heap) (update : bytes) :
  let h1 := snd (new_LoroProvider given h) in
  let built := emitted (new_LoroProvider given) h in
  (given_websocketProvider given = Absent ->
      fst (new_LoroProvider given h) = Normal tt
      /\ In NewWebsocket built
      /\ manageSocket (this h1) = true
      /\ _isAttached (this h1) = true
      /\ websocketProvider (configuration (this h1)) = Some OwnWebsocket
      /\ frames (emitted (onLocalUpdate update) h1)
         = [toUint8Array (LoroUpdateMessage (given_name given) update)])
  /\ (forall w, given_websocketProvider given = Present (Some w) ->
      fst (new_LoroProvider given h) = Normal tt
      /\ ~ In NewWebsocket built
      /\ manageSocket (this h1) = false
      /\ _isAttached (this h1) = false
      /\ websocketProvider (configuration (this h1)) = Some w
      /\ onLocalUpdate update h1 = (Normal tt, h1)
      /\ frames (emitted (onLocalUpdate update) (snd (attach h1)))
         = [toUint8Array (LoroUpdateMessage (given_name given) update)])
  /\ (given_websocketProvider given = Present None ->
      fst (new_LoroProvider given h) = Throw TypeError
      /\ In NewWebsocket built
      /\ manageSocket (this h1) = true
      /\ _isAttached (this h1) = false
      /\ websocketProvider (configuration (this h1)) = None
      /\ unsubDoc (this h1)
         = returned (doc_subscription (spread (given_doc given) None))
      /\ unsubEphemeral (this h1)
         = returned (store_subscription (spread (given_ephemeralStore given) None))
      /\ unsubscribe_calls OnDoc built = 0%nat
      /\ unsubscribe_calls OnEphemeral built = 0%nat
      /\ intervals_cleared built = []
      /\ forall id, intervals_forceSync (this h1) = Some id -> active id h1 = true).
Proof.
  intros h1 built.
  destruct (constructor_run given h)
    as [Hfst [Hconf [Hmanage [Hatt [Hdoc [Heph [Hhandle [Htimers _]]]]]]]].
  fold h1 in Hconf, Hmanage, Hatt, Hdoc, Heph, Hhandle, Htimers.
  assert (Hbuilt : built = constructed_log given (nextTimer h))
    by apply constructor_emitted.
  assert (Hname : name (configuration (this h1)) = given_name given)
    by (rewrite Hconf; reflexivity).
  assert (Hws : websocketProvider (configuration (this h1))
            = spread (given_websocketProvider given) (Some OwnWebsocket))
    by (rewrite Hconf; reflexivity).
  unfold without_websocketProvider in Hmanage.
  split; [|split].
  - intros Hkey. rewrite Hkey in *.
    split; [exact Hfst|].
    split.
    { rewrite Hbuilt. unfold constructed_log, without_websocketProvider.
      rewrite Hkey. left. reflexivity. }
    split; [exact Hmanage|]. split; [exact Hatt|]. split; [exact Hws|].
    erewrite emitted_logged
      by (rewrite onLocalUpdate_run, Hatt; reflexivity).
    rewrite Hname. reflexivity.
  - intros w Hkey. rewrite Hkey in *.
    split; [exact Hfst|].
    split.
    { rewrite Hbuilt. unfold constructed_log, without_websocketProvider.
      rewrite Hkey. rewrite app_nil_r. simpl.
      intros Hin. repeat (apply in_app_or in Hin; destruct Hin as [Hin|Hin]);
        repeat match goal with
               | Hin : In _ (match ?x with _ => _ end) |- _ => destruct x
               | Hin : In _ (_ :: _) |- _ => destruct Hin as [Hin|Hin]
               | Hin : In _ [] |- _ => destruct Hin
               | Hin : _ = NewWebsocket |- _ => discriminate Hin
               end. }
    split; [exact Hmanage|]. split; [exact Hatt|]. split; [exact Hws|].
    split; [rewrite onLocalUpdate_run, Hatt; reflexivity|].
    assert (Hon : attach h1
              = (Normal tt,
                 {| this := set_isAttached true (this h1);
                    events := events h1 ++ attach_log;
                    timers := timers h1; nextTimer := nextTimer h1 |})).
    { rewrite attach_run, Hatt. unfold has_websocketProvider. rewrite Hws.
      reflexivity. }
    rewrite Hon. simpl snd.
    erewrite emitted_logged by (rewrite onLocalUpdate_run; reflexivity).
    simpl. rewrite Hname. reflexivity.
  - intros Hkey. rewrite Hkey in *.
    destruct (constructed_log_intervals given (nextTimer h)) as [_ Hcleared].
    split; [exact Hfst|].
    split.
    { rewrite Hbuilt. unfold constructed_log, without_websocketProvider.
      rewrite Hkey. left. reflexivity. }
    split; [exact Hmanage|]. split; [exact Hatt|]. split; [exact Hws|].
    split; [exact Hdoc|]. split; [exact Heph|].
    assert (Hnone : forall s, unsubscribe_calls s built = 0%nat).
    { intros s. rewrite Hbuilt. unfold constructed_log, without_websocketProvider.
      rewrite Hkey.
      destruct (doc_subscription _), (store_subscription _), (is_interval _);
        reflexivity. }
    split; [apply Hnone|]. split; [apply Hnone|].
    split; [rewrite Hbuilt; exact Hcleared|].
    intros id Hid. rewrite Hhandle in Hid.
    destruct (is_interval _) as [ms|]; [|discriminate].
    inversion Hid; subst id. eapply active_registered; exact Htimers.
Qed.

(** X10: which [forceSyncInterval] starts a timer.  The constructor calls
    [setInterval] exactly when [forceSyncInterval] is a truthy number, once,
    with that number as the delay, and stores the handle it gets; the
    interval is then active.  A negative number and an infinite one are
    passed on to [setInterval] as they are; [0], [NaN], [false] and
    [undefined] make no call and store no handle; a configuration without
    the key gets the default of 15000. *)
Theorem timer_is_started_for_truthy_numbers
    (given : PartialConfiguration) (h : Heap) :
  let h1 := snd (new_LoroProvider given h) in
  let calls := intervals_set (emitted (new_LoroProvider given) h) in
  (forall ms, given_forceSyncInterval given = Present (FsNumber ms) ->
     (truthy_number ms = true ->
      exists id,
        calls = [(id, ms)]
        /\ intervals_forceSync (this h1) = Some id
        /\ active id h1 = true)
     /\ (truthy_number ms = false ->
         calls = [] /\ intervals_forceSync (this h1) = None))
  /\ (given_forceSyncInterval given = Present FsFalse
      \/ given_forceSyncInterval given = Present FsUndefined ->
      calls = [] /\ intervals_forceSync (this h1) = None)
  /\ (given_forceSyncInterval given = Absent ->
      exists id,
        calls = [(id, integer 15000)]
        /\ intervals_forceSync (this h1) = Some id
        /\ active id h1 = true)
  /\ truthy_number NaN = false
  /\ (forall z, truthy_number (integer z) = negb (z =? 0)%Z)
  /\ (forall negative, truthy_number (Infinity negative) = true).
Proof.
  intros h1 calls.
  destruct (constructor_run given h)
    as [_ [_ [_ [_ [_ [_ [Hhandle [Htimers _]]]]]]]].
  fold h1 in Hhandle, Htimers.
  destruct (constructed_log_intervals given (nextTimer h)) as [Hcalls _].
  rewrite <- constructor_emitted in Hcalls. fold calls in Hcalls.
  unfold constructed_configuration in Hhandle, Htimers, Hcalls.
  simpl in Hhandle, Htimers, Hcalls.
  split; [|split; [|split; [|repeat split]]].
  - intros ms Hms. rewrite Hms in *. simpl in Hhandle, Htimers, Hcalls. split.
    + intros Htruthy. rewrite Htruthy in *. exists (nextTimer h).
      split; [exact Hcalls|]. split; [exact Hhandle|].
      eapply active_registered; exact Htimers.
    + intros Hfalsy. rewrite Hfalsy in *. split; assumption.
  - intros [Hkey|Hkey]; rewrite Hkey in *; split; assumption.
  - intros Hkey. rewrite Hkey in *. exists (nextTimer h).
    split; [exact Hcalls|]. split; [exact Hhandle|].
    eapply active_registered; exact Htimers.
Qed.

Lemma existsb_cleared (l : list (positive * Number)) (id : positive) :
  existsb (fun t => Pos.eqb (fst t) id)
    (filter (fun t => negb (Pos.eqb (fst t) id)) l) = false.
Proof.
  induction l as [|t rest IH]; simpl; [reflexivity|].
  destruct (Pos.eqb (fst t) id) eqn:E; simpl; [exact IH|].
  rewrite E. exact IH.
Qed.

(** After [destroy()] the interval whose handle the provider stored is not
    active. *)
Lemma destroyed_inactive (h : Heap) (l : list Event) (id : positive) :
  intervals_forceSync (this h) = Some id -> active id (destroyed h l) = false.
Proof.
  intros Hid. unfold active, destroyed. simpl. rewrite Hid.
  apply existsb_cleared.
Qed.

(** X11: [destroy()] releases what the constructor acquired, the web socket
    apart.  On a provider as the constructor left it, [destroy()] calls
    [clearInterval] on exactly the handle that the constructor got from
    [setInterval], and that interval is no longer active; it calls the
    unsubscribe function of the doc subscription once if
    [subscribeLocalUpdates] returned a function and never otherwise,
    likewise for the ephemeral store, and forgets both.  When the
    constructor returned, [destroy()] returns too, leaves the provider
    detached, and has made no other call than these, its ["destroy"] event,
    the six [off] and the [detach] on the web socket: a web socket that the
    constructor created is detached from, never disposed of. *)
Theorem destroy_releases_what_the_constructor_acquired
    (given : PartialConfiguration) (h : Heap) :
  let built := emitted (new_LoroProvider given) h in
  let h1 := snd (new_LoroProvider given h) in
  let released := emitted destroy h1 in
  let h2 := snd (destroy h1) in
  let unsubscribed (s : Subscription) (method : option (option UnsubscribeFn)) :=
    match returned method with Some _ => [Unsubscribe s] | None => [] end in
  let doc_method := doc_subscription (spread (given_doc given) None) in
  let store_method :=
    store_subscription (spread (given_ephemeralStore given) None) in
  intervals_cleared released = map fst (intervals_set built)
  /\ (forall id, In id (map fst (intervals_set built)) -> active id h2 = false)
  /\ unsubscribe_calls OnDoc released = List.length (unsubscribed OnDoc doc_method)
  /\ unsubscribe_calls OnEphemeral released
     = List.length (unsubscribed OnEphemeral store_method)
  /\ unsubDoc (this h2) = None
  /\ unsubEphemeral (this h2) = None
  /\ (fst (new_LoroProvider given h) = Normal tt ->
      fst (destroy h1) = Normal tt
      /\ _isAttached (this h2) = false
      /\ released
         = [Emit "destroy"]
           ++ map ClearInterval (map fst (intervals_set built))
           ++ unsubscribed OnDoc doc_method
           ++ unsubscribed OnEphemeral store_method
           ++ [WsOff "connect"; WsOff "status"; WsOff "open"; WsOff "close";
               WsOff "disconnect"; WsOff "destroy"; WsDetach]).
Proof.
  intros built h1 released h2 unsubscribed doc_method store_method.
  destruct (constructor_run given h)
    as [Hfst [Hconf [_ [_ [Hdoc [Heph [Hhandle _]]]]]]].
  fold h1 in Hconf, Hdoc, Heph, Hhandle.
  destruct (constructed_log_intervals given (nextTimer h)) as [Hcalls _].
  rewrite <- constructor_emitted in Hcalls. fold built in Hcalls.
  change (doc (constructed_configuration given))
    with (spread (given_doc given) None) in Hdoc.
  change (ephemeralStore (constructed_configuration given))
    with (spread (given_ephemeralStore given) None) in Heph.
  fold doc_method in Hdoc. fold store_method in Heph.
  assert (Hreleased : released = destroyed_log h1).
  { apply events_emitted_app. rewrite destroy_run. reflexivity. }
  assert (Hh2 : h2 = destroyed h1 (destroyed_log h1))
    by (unfold h2; rewrite destroy_run; reflexivity).
  assert (Hws : has_websocketProvider h1
            = match given_websocketProvider given with
              | Present None => false
              | _ => true
              end).
  { unfold has_websocketProvider. rewrite Hconf. simpl.
    destruct (given_websocketProvider given) as [|[w|]]; reflexivity. }
  assert (Hids : map fst (intervals_set built)
            = match intervals_forceSync (this h1) with
              | Some id => [id]
              | None => []
              end).
  { rewrite Hcalls, Hhandle. destruct (is_interval _); reflexivity. }
  rewrite Hreleased, Hh2, Hids. unfold destroyed_log.
  rewrite Hdoc, Heph. unfold unsubscribed.
  split; [|split; [|split; [|split; [|split; [|split]]]]].
  - destruct (intervals_forceSync (this h1)), (returned doc_method),
      (returned store_method), (has_websocketProvider h1); reflexivity.
  - intros id Hin. destruct (intervals_forceSync (this h1)) as [id'|] eqn:E;
      [|destruct Hin]. destruct Hin as [<-|[]].
    apply destroyed_inactive. exact E.
  - destruct (intervals_forceSync (this h1)), (returned doc_method),
      (returned store_method), (has_websocketProvider h1); reflexivity.
  - destruct (intervals_forceSync (this h1)), (returned doc_method),
      (returned store_method), (has_websocketProvider h1); reflexivity.
  - unfold destroyed. simpl. destruct (has_websocketProvider h1); reflexivity.
  - unfold destroyed. simpl. destruct (has_websocketProvider h1); reflexivity.
  - intros Hreturned. rewrite Hfst in Hreturned.
    assert (Hsocket : has_websocketProvider h1 = true).
    { rewrite Hws. destruct (given_websocketProvider given) as [|[w|]];
        [reflexivity | reflexivity | discriminate Hreturned]. }
    rewrite destroy_run, Hsocket. unfold destroyed. rewrite Hsocket.
    split; [reflexivity|]. split; [reflexivity|].
    destruct (intervals_forceSync (this h1)); reflexivity.
Qed.

(** X12: a destroyed provider is silent.  After [destroy()] the interval
    whose handle the provider stored is no longer active, so its tick does
    not even run [forceSync].  On a provider with a web socket [destroy()]
    returns and leaves the provider detached: no tick of any interval, no
    [forceSync()] and no local update of the doc or of the ephemeral store
    hands a frame to the web socket.  On a provider whose
    [configuration.websocketProvider] holds no web socket, [destroy()]
    throws the [TypeError] of [detach()] and the attachment flag stays as
    it was. *)
Theorem destroyed_provider_is_silent (h : Heap) (update : bytes) :
  let h1 := snd (destroy h) in
  (forall id, intervals_forceSync (this h) = Some id ->
     active id h1 = false /\ tick id h1 = (Normal tt, h1))
  /\ (has_websocketProvider h = true ->
      fst (destroy h) = Normal tt
      /\ _isAttached (this h1) = false
      /\ (forall id, frames (emitted (tick id) h1) = [])
      /\ forceSync h1 = (Normal tt, h1)
      /\ onLocalUpdate update h1 = (Normal tt, h1)
      /\ onLocalEphemeralUpdate update h1 = (Normal tt, h1))
  /\ (has_websocketProvider h = false ->
      fst (destroy h) = Throw TypeError
      /\ _isAttached (this h1) = _isAttached (this h)).
Proof.
  intros h1.
  assert (Hh1 : h1 = destroyed h (destroyed_log h))
    by (unfold h1; rewrite destroy_run; reflexivity).
  split; [|split].
  - intros id Hid.
    assert (Hidle : active id h1 = false)
      by (rewrite Hh1; apply destroyed_inactive, Hid).
    split; [exact Hidle|].
    unfold tick, bind, when. simpl. unfold active in Hidle. rewrite Hidle.
    reflexivity.
  - intros Hws.
    assert (Hoff : _isAttached (this h1) = false).
    { rewrite Hh1. unfold destroyed. rewrite Hws. reflexivity. }
    assert (Hsync : startSync h1 = (Normal tt, h1)).
    { destruct (startSync_sends h1) as [v Hv]. rewrite Hoff in Hv. exact Hv. }
    assert (Hnil : forall (m : M unit), m h1 = (Normal tt, h1) ->
              frames (emitted m h1) = []).
    { intros m Hm. rewrite <- (logged_nil h1) in Hm at 2.
      erewrite emitted_logged by exact Hm. reflexivity. }
    split; [rewrite destroy_run, Hws; reflexivity|].
    split; [exact Hoff|].
    split; [|split; [|split]].
    + intros id. apply Hnil. unfold tick, bind, when, forceSync. simpl.
      destruct (existsb _ (timers h1)); [exact Hsync | reflexivity].
    + exact Hsync.
    + rewrite onLocalUpdate_run, Hoff. reflexivity.
    + rewrite onLocalEphemeralUpdate_run, Hoff. reflexivity.
  - intros Hws. split; [rewrite destroy_run, Hws; reflexivity|].
    rewrite Hh1. unfold destroyed. rewrite Hws. reflexivity.
Qed.

(** ** Inbound frames *)

Lemma importBatch_stops (d : LoroDoc)
    (import : list Event -> bytes -> Completion unit)
    (before : list bytes) (u : bytes) (e : Exn) :
  forall (more : nat) (decoder : bytes) (h : Heap),
    doc (configuration (this h)) = Some d ->
    doc_import d = Some import ->
    (forall past v, In v before -> import past v = Normal tt) ->
    (forall past, import past u = Throw e) ->
    importBatch (List.length before + S more)
      (List.concat (map Codec.writeVarUint8Array before)
       ++ Codec.writeVarUint8Array u ++ decoder) h
    = (Throw e, logged (map DocImport (before ++ [u])) h).
Proof.
  induction before as [|v vs IH]; intros more decoder h Hd Hi Hok Hthrow; simpl.
  - unfold Codec.reading.
    rewrite CodecFacts.readVarUint8Array_writeVarUint8Array.
    unfold bind. rewrite (doc_import_opt_run u h Hd Hi), Hthrow. reflexivity.
  - unfold Codec.reading. rewrite <- app_assoc.
    rewrite CodecFacts.readVarUint8Array_writeVarUint8Array.
    unfold bind. rewrite (doc_import_opt_run v h Hd Hi).
    rewrite Hok by (left; reflexivity).
    rewrite IH; try assumption.
    + rewrite logged_logged. reflexivity.
    + intros past w Hw. apply Hok. right. exact Hw.
Qed.

(** X13: a failed import ends the batch.  When [doc.import] throws on an
    update of a [LoroSyncBatch] frame, [onMessage] throws that exception:
    the updates before it have been imported, in order, and the updates
    after it are never imported. *)
Theorem sync_batch_stops_at_a_failed_import
    (h : Heap) (d : LoroDoc) (import : list Event -> bytes -> Completion unit)
    (documentName : string) (before after : list bytes) (u : bytes) (e : Exn) :
  MessageType.LoroSyncBatch <> MessageType.Auth ->
  MessageType.LoroSyncBatch <> MessageType.LoroUpdate ->
  doc (configuration (this h)) = Some d ->
  doc_import d = Some import ->
  (forall past v, In v before -> import past v = Normal tt) ->
  (forall past, import past u = Throw e) ->
  let updates := before ++ u :: after in
  let data :=
    Codec.writeVarString documentName
    ++ Codec.writeVarUint MessageType.LoroSyncBatch
    ++ Codec.writeVarUint (N.of_nat (List.length updates))
    ++ List.concat (map Codec.writeVarUint8Array updates) in
  onMessage data h
  = (Throw e, logged (Emit "message" :: map DocImport (before ++ [u])) h)
  /\ imports (emitted (onMessage data) h) = before ++ [u].
Proof.
  intros Hauth Hupdate Hd Hi Hok Hthrow updates data.
  assert (Hrun : onMessage data h
            = (Throw e, logged (Emit "message" :: map DocImport (before ++ [u])) h)).
  { unfold data, updates. rewrite onMessage_dispatch.
    apply N.eqb_neq in Hauth, Hupdate. rewrite Hauth, Hupdate, N.eqb_refl.
    unfold Codec.reading. rewrite CodecFacts.readVarUint_writeVarUint.
    rewrite Nat2N.id, length_app, map_app, concat_app. simpl.
    rewrite importBatch_stops with (d := d) (import := import) (e := e);
      try assumption.
    rewrite logged_logged. reflexivity. }
  split; [exact Hrun|].
  erewrite emitted_logged by exact Hrun. simpl. apply imports_DocImport.
Qed.



Lemma applies_not_import (u : bytes) : applies [DocImport u] = [].
Proof. reflexivity. Qed.

(** How the two single-payload frames are handled. *)
Lemma onMessage_update (h : Heap) (documentName : string) (u rest : bytes) :
  MessageType.LoroUpdate <> MessageType.Auth ->
  onMessage (Codec.writeVarString documentName
             ++ Codec.writeVarUint MessageType.LoroUpdate
             ++ Codec.writeVarUint8Array u ++ rest) h
  = match doc (configuration (this h)) with
    | Some d =>
        match doc_import d with
        | Some import =>
            (import (events h ++ [Emit "message"]) u,
             logged [Emit "message"; DocImport u] h)
        | None => (Normal tt, logged [Emit "message"] h)
        end
    | None => (Normal tt, logged [Emit "message"] h)
    end.
Proof.
  intros Hauth. rewrite onMessage_dispatch.
  apply N.eqb_neq in Hauth. rewrite Hauth, N.eqb_refl.
  unfold Codec.reading.
  rewrite CodecFacts.readVarUint8Array_writeVarUint8Array.
  unfold doc_import_opt, read_this, bind, foreign. simpl.
  destruct (doc (configuration (this h))) as [d|]; [|reflexivity].
  destruct (doc_import d) as [import|]; [|reflexivity].
  unfold logged. simpl. rewrite <- app_assoc. reflexivity.
Qed.

Lemma onMessage_ephemeral (h : Heap) (documentName : string) (u rest : bytes) :
  MessageType.LoroEphemeral <> MessageType.Auth ->
  MessageType.LoroEphemeral <> MessageType.LoroUpdate ->
  MessageType.LoroEphemeral <> MessageType.LoroSyncBatch ->
  onMessage (Codec.writeVarString documentName
             ++ Codec.writeVarUint MessageType.LoroEphemeral
             ++ Codec.writeVarUint8Array u ++ rest) h
  = match ephemeralStore (configuration (this h)) with
    | Some s =>
        match store_apply s with
        | Some apply =>
            (apply (events h ++ [Emit "message"]) u,
             logged [Emit "message"; EphemeralApply u] h)
        | None => (Normal tt, logged [Emit "message"] h)
        end
    | None => (Normal tt, logged [Emit "message"] h)
    end.
Proof.
  intros Hauth Hupdate Hbatch. rewrite onMessage_dispatch.
  apply N.eqb_neq in Hauth, Hupdate, Hbatch.
  rewrite Hauth, Hupdate, Hbatch, N.eqb_refl.
  unfold Codec.reading.
  rewrite CodecFacts.readVarUint8Array_writeVarUint8Array.
  unfold store_apply_opt, read_this, bind, foreign. simpl.
  destruct (ephemeralStore (configuration (this h))) as [s|]; [|reflexivity].
  destruct (store_apply s) as [apply|]; [|reflexivity].
  unfold logged. simpl. rewrite <- app_assoc. reflexivity.
Qed.

(** X15: update frames go to the doc, ephemeral frames to the store.  A
    [LoroUpdate] frame makes [onMessage] call [doc.import] once, with the
    payload, and never [ephemeralStore.apply]; a [LoroEphemeral] frame makes
    it call [ephemeralStore.apply] once, with the payload, and never
    [doc.import].  When the object or its method is missing the frame is
    consumed without a call and without an error. *)
Theorem frames_reach_their_own_target
    (h : Heap) (documentName : string) (u rest : bytes) :
  MessageType.LoroUpdate <> MessageType.Auth ->
  MessageType.LoroEphemeral <> MessageType.Auth ->
  MessageType.LoroEphemeral <> MessageType.LoroUpdate ->
  MessageType.LoroEphemeral <> MessageType.LoroSyncBatch ->
  let update_frame :=
    Codec.writeVarString documentName
    ++ Codec.writeVarUint MessageType.LoroUpdate
    ++ Codec.writeVarUint8Array u ++ rest in
  let ephemeral_frame :=
    Codec.writeVarString documentName
    ++ Codec.writeVarUint MessageType.LoroEphemeral
    ++ Codec.writeVarUint8Array u ++ rest in
  let has_import :=
    match doc (configuration (this h)) with
    | Some d => match doc_import d with Some _ => true | None => false end
    | None => false
    end in
  let has_apply :=
    match ephemeralStore (configuration (this h)) with
    | Some s => match store_apply s with Some _ => true | None => false end
    | None => false
    end in
  imports (emitted (onMessage update_frame) h) = (if has_import then [u] else [])
  /\ applies (emitted (onMessage update_frame) h) = []
  /\ (has_import = false -> fst (onMessage update_frame h) = Normal tt)
  /\ applies (emitted (onMessage ephemeral_frame) h)
     = (if has_apply then [u] else [])
  /\ imports (emitted (onMessage ephemeral_frame) h) = []
  /\ (has_apply = false -> fst (onMessage ephemeral_frame h) = Normal tt).
Proof.
  intros Hua Hea Heu Heb update_frame ephemeral_frame has_import has_apply.
  pose proof (onMessage_update h documentName u rest Hua) as Hu.
  pose proof (onMessage_ephemeral h documentName u rest Hea Heu Heb) as He.
  fold update_frame in Hu. fold ephemeral_frame in He.
  unfold has_import, has_apply.
  destruct (doc (configuration (this h))) as [d|];
    [destruct (doc_import d) as [import|]|];
    (destruct (ephemeralStore (configuration (this h))) as [s|];
     [destruct (store_apply s) as [apply|]|]);
    repeat split;
    try (erewrite emitted_logged by exact Hu; reflexivity);
    try (erewrite emitted_logged by exact He; reflexivity);
    try (intros _; rewrite Hu; reflexivity);
    try (intros _; rewrite He; reflexivity);
    try discriminate.
Qed.

(** X16: the document name of an inbound frame is not checked.  [onMessage]
    reads the name at the head of the frame and then handles the rest of
    the frame in the same way for every name; in particular a frame
    addressed to another document than [configuration.name] is applied all
    the same. *)
Theorem inbound_document_name_is_not_checked
    (h : Heap) (documentName otherName : string) (rest : bytes) :
  onMessage (Codec.writeVarString documentName ++ rest) h
  = onMessage (Codec.writeVarString otherName ++ rest) h
  /\ forall u, MessageType.LoroUpdate <> MessageType.Auth ->
       imports (emitted (onMessage
                  (Codec.writeVarString otherName
                   ++ Codec.writeVarUint MessageType.LoroUpdate
                   ++ Codec.writeVarUint8Array u)) h)
       = match doc (configuration (this h)) with
         | Some d => match doc_import d with Some _ => [u] | None => [] end
         | None => []
         end.
Proof.
  split.
  - unfold onMessage, Codec.reading.
    rewrite !CodecFacts.readVarString_writeVarString. reflexivity.
  - intros u Hua.
    pose proof (onMessage_update h otherName u [] Hua) as Hu.
    rewrite app_nil_r in Hu.
    destruct (doc (configuration (this h))) as [d|];
      [destruct (doc_import d) as [import|]|];
      erewrite emitted_logged by exact Hu; reflexivity.
Qed.

(** ** From one provider to another *)

(** X17: a local update arrives as it was made.  The frame that an attached
    provider sends for a local update of its doc, handed to [onMessage] of
    a provider whose doc has [import], makes that provider call
    [doc.import] exactly once, with the very bytes of the update; the
    sender sends exactly one frame. *)
Theorem local_update_reaches_the_remote_doc
    (sender receiver : Heap) (update : bytes) (d : LoroDoc)
    (import : list Event -> bytes -> Completion unit) :
  _isAttached (this sender) = true ->
  MessageType.LoroUpdate <> MessageType.Auth ->
  doc (configuration (this receiver)) = Some d ->
  doc_import d = Some import ->
  exists frame,
    frames (emitted (onLocalUpdate update) sender) = [frame]
    /\ onMessage frame receiver
       = (import (events receiver ++ [Emit "message"]) update,
          logged [Emit "message"; DocImport update] receiver)
    /\ imports (emitted (onMessage frame) receiver) = [update].
Proof.
  intros Hatt Hua Hd Hi.
  exists (toUint8Array
            (LoroUpdateMessage (name (configuration (this sender))) update)).
  assert (Hrecv : onMessage
            (toUint8Array
               (LoroUpdateMessage (name (configuration (this sender))) update))
            receiver
          = (import (events receiver ++ [Emit "message"]) update,
             logged [Emit "message"; DocImport update] receiver)).
  { pose proof (onMessage_update receiver
                  (name (configuration (this sender))) update [] Hua) as Hu.
    rewrite app_nil_r, Hd, Hi in Hu. exact Hu. }
  split; [|split; [exact Hrecv|]].
  - erewrite emitted_logged
      by (rewrite onLocalUpdate_run, Hatt; reflexivity).
    reflexivity.
  - erewrite emitted_logged by exact Hrecv. reflexivity.
Qed.

(** X18: a local ephemeral update arrives as it was made.  The frame that
    an attached provider sends for a local update of its ephemeral store,
    handed to [onMessage] of a provider whose store has [apply], makes that
    provider call [ephemeralStore.apply] exactly once, with the very bytes
    of the update, and import nothing into its doc. *)
Theorem local_ephemeral_update_reaches_the_remote_store
    (sender receiver : Heap) (update : bytes) (s : EphemeralStore)
    (apply : list Event -> bytes -> Completion unit) :
  _isAttached (this sender) = true ->
  MessageType.LoroEphemeral <> MessageType.Auth ->
  MessageType.LoroEphemeral <> MessageType.LoroUpdate ->
  MessageType.LoroEphemeral <> MessageType.LoroSyncBatch ->
  ephemeralStore (configuration (this receiver)) = Some s ->
  store_apply s = Some apply ->
  exists frame,
    frames (emitted (onLocalEphemeralUpdate update) sender) = [frame]
    /\ onMessage frame receiver
       = (apply (events receiver ++ [Emit "message"]) update,
          logged [Emit "message"; EphemeralApply update] receiver)
    /\ applies (emitted (onMessage frame) receiver) = [update]
    /\ imports (emitted (onMessage frame) receiver) = [].
Proof.
  intros Hatt Hea Heu Heb Hs Ha.
  exists (toUint8Array
            (LoroEphemeralMessage (name (configuration (this sender))) update)).
  assert (Hrecv : onMessage
            (toUint8Array
               (LoroEphemeralMessage (name (configuration (this sender))) update))
            receiver
          = (apply (events receiver ++ [Emit "message"]) update,
             logged [Emit "message"; EphemeralApply update] receiver)).
  { pose proof (onMessage_ephemeral receiver
                  (name (configuration (this sender))) update [] Hea Heu Heb)
      as He.
    rewrite app_nil_r, Hs, Ha in He. exact He. }
  split; [|split; [exact Hrecv|split]].
  - erewrite emitted_logged
      by (rewrite onLocalEphemeralUpdate_run, Hatt; reflexivity).
    reflexivity.
  - erewrite emitted_logged by exact Hrecv. reflexivity.
  - erewrite emitted_logged by exact Hrecv. reflexivity.
Qed.

(** ** Frames and messages *)

Lemma read_payload (b : bytes) :
  Codec.readVarUint8Array (Codec.writeVarUint8Array b) = Some (b, []).
Proof.
  rewrite <- (app_nil_r (Codec.writeVarUint8Array b)).
  apply CodecFacts.readVarUint8Array_writeVarUint8Array.
Qed.

(** The three fields of a frame, read back. *)
Lemma frame_fields (documentName : string) (type : N) (payload : bytes) :
  Codec.readVarString
    (Codec.writeVarString documentName ++ Codec.writeVarUint type ++ payload)
  = Some (documentName, Codec.writeVarUint type ++ payload)
  /\ Codec.readVarUint (Codec.writeVarUint type ++ payload)
     = Some (type, payload).
Proof.
  split.
  - apply CodecFacts.readVarString_writeVarString.
  - apply CodecFacts.readVarUint_writeVarUint.
Qed.

Lemma frame_injective (n n' : string) (t t' : N) (p p' : bytes) :
  Codec.writeVarString n ++ Codec.writeVarUint t ++ p
  = Codec.writeVarString n' ++ Codec.writeVarUint t' ++ p' ->
  n = n' /\ t = t' /\ p = p'.
Proof.
  intros E.
  pose proof (proj1 (frame_fields n t p)) as A. rewrite E in A.
  rewrite (proj1 (frame_fields n' t' p')) in A.
  inversion A as [[Hn Hrest]]. subst n'.
  pose proof (proj2 (frame_fields n t p)) as B. rewrite <- Hrest in B.
  rewrite (proj2 (frame_fields n t' p')) in B.
  inversion B. auto.
Qed.

(** X19: a frame determines its message.  Two [LoroUpdate] frames are equal
    only for the same document name and the same update, likewise two
    [LoroEphemeral] frames, and two [LoroSyncRequest] frames only for the
    same name and the same version string as written; a frame of one of
    the three classes is never a frame of another, the tags being
    different. *)
Theorem frame_determines_its_message
    (n n' : string) (u u' : bytes) (v v' : option string) :
  (toUint8Array (LoroUpdateMessage n u) = toUint8Array (LoroUpdateMessage n' u') ->
   n = n' /\ u = u')
  /\ (toUint8Array (LoroEphemeralMessage n u)
      = toUint8Array (LoroEphemeralMessage n' u') ->
      n = n' /\ u = u')
  /\ (toUint8Array (LoroSyncRequestMessage n v)
      = toUint8Array (LoroSyncRequestMessage n' v') ->
      n = n' /\ or_empty v = or_empty v')
  /\ (MessageType.LoroUpdate <> MessageType.LoroEphemeral ->
      toUint8Array (LoroUpdateMessage n u)
      <> toUint8Array (LoroEphemeralMessage n' u'))
  /\ (MessageType.LoroUpdate <> MessageType.LoroSyncRequest ->
      toUint8Array (LoroUpdateMessage n u)
      <> toUint8Array (LoroSyncRequestMessage n' v'))
  /\ (MessageType.LoroEphemeral <> MessageType.LoroSyncRequest ->
      toUint8Array (LoroEphemeralMessage n u)
      <> toUint8Array (LoroSyncRequestMessage n' v')).
Proof.
  assert (Hpayload : forall b b',
            Codec.writeVarUint8Array b = Codec.writeVarUint8Array b' -> b = b').
  { intros b b' E. pose proof (read_payload b) as A. rewrite E in A.
    rewrite read_payload in A. inversion A. reflexivity. }
  assert (Hstring : forall s s',
            Codec.writeVarString s = Codec.writeVarString s' -> s = s').
  { intros s s' E.
    pose proof (CodecFacts.readVarString_writeVarString s []) as A.
    rewrite app_nil_r, E in A.
    rewrite <- (app_nil_r (Codec.writeVarString s')) in A.
    rewrite CodecFacts.readVarString_writeVarString in A.
    inversion A. reflexivity. }
  split; [|split; [|split; [|split; [|split]]]]; simpl; intros E.
  - apply frame_injective in E. destruct E as [Hn [_ Hp]]. auto.
  - apply frame_injective in E. destruct E as [Hn [_ Hp]]. auto.
  - apply frame_injective in E. destruct E as [Hn [_ Hp]]. auto.
  - intros F. apply frame_injective in F. destruct F as [_ [Ht _]]. auto.
  - intros F. apply frame_injective in F. destruct F as [_ [Ht _]]. auto.
  - intros F. apply frame_injective in F. destruct F as [_ [Ht _]]. auto.
Qed.

(** ** The playground's factory *)

(** X20: the playground's provider is attached.  [createLoroProvider]
    returns with a provider for [documentId] that is attached to the web
    socket it was given and does not manage it; the default interval of
    15000 ms is registered, and from then on every tick of it hands one
    [LoroSyncRequest] frame for [documentId] to the web socket. *)
Theorem playground_provider_is_attached
    (socket : nat) (documentId : string) (doc' : LoroDoc)
    (store : option EphemeralStore) (h : Heap) :
  let h1 := snd (createLoroProvider socket documentId doc' store h) in
  fst (createLoroProvider socket documentId doc' store h) = Normal tt
  /\ _isAttached (this h1) = true
  /\ manageSocket (this h1) = false
  /\ name (configuration (this h1)) = documentId
  /\ websocketProvider (configuration (this h1)) = Some (SharedWebsocket socket)
  /\ timers h1 = timers h ++ [(nextTimer h, integer 15000)]
  /\ exists versionJSON : string,
       frames (emitted (tick (nextTimer h)) h1)
       = [Codec.writeVarString documentId
          ++ Codec.writeVarUint MessageType.LoroSyncRequest
          ++ Codec.writeVarString versionJSON].
Proof.
  intros h1.
  set (given := {| given_name := documentId; given_doc := Present (Some doc');
                   given_ephemeralStore := Present store;
                   given_websocketProvider := Present (Some (SharedWebsocket socket));
                   given_forceSyncInterval := Absent |}).
  destruct (constructor_run given (logged [NewWebsocket] h))
    as [Hfst [Hconf [Hmanage [Hatt [_ [_ [_ [Htimers _]]]]]]]].
  simpl in Hfst, Hmanage, Hatt, Htimers.
  pose proof (run_of_parts _ _ Hfst) as Hnew.
  set (built := snd (new_LoroProvider given (logged [NewWebsocket] h))) in *.
  assert (Hname : name (configuration (this built)) = documentId)
    by (rewrite Hconf; reflexivity).
  assert (Hws : websocketProvider (configuration (this built))
            = Some (SharedWebsocket socket))
    by (rewrite Hconf; reflexivity).
  set (final := {| this := set_isAttached true (this built);
                   events := events built ++ attach_log;
                   timers := timers built; nextTimer := nextTimer built |}).
  assert (Hrun : createLoroProvider socket documentId doc' store h
            = (Normal tt, final)).
  { unfold createLoroProvider.
    erewrite bind_run by reflexivity.
    erewrite bind_run by exact Hnew.
    rewrite attach_run, Hatt. unfold has_websocketProvider. rewrite Hws.
    reflexivity. }
  assert (Hh1 : h1 = final) by (unfold h1; rewrite Hrun; reflexivity).
  rewrite Hh1.
  split; [rewrite Hrun; reflexivity|]. split; [reflexivity|].
  split; [exact Hmanage|]. split; [exact Hname|]. split; [exact Hws|].
  split; [exact Htimers|].
  destruct (startSync_sends final) as [versionJSON Hsync].
  exists versionJSON.
  assert (Htick : tick (nextTimer h) final
            = (Normal tt,
               logged
                 [Emit "outgoingMessage";
                  WsSend (Codec.writeVarString documentId
                          ++ Codec.writeVarUint MessageType.LoroSyncRequest
                          ++ Codec.writeVarString versionJSON)] final)).
  { unfold tick, bind, when, forceSync.
    replace (existsb (fun t => Pos.eqb (fst t) (nextTimer h)) (timers final))
      with true.
    - rewrite Hsync. change (name (configuration (this final)))
        with (name (configuration (this built))). rewrite Hname. reflexivity.
    - change (timers final) with (timers built). rewrite Htimers.
      rewrite existsb_app. simpl. rewrite Pos.eqb_refl, orb_true_r.
      reflexivity. }
  erewrite emitted_logged by exact Htick. reflexivity.
Qed.

End WithTags.

(** ** Instances on the sample providers *)

Import Samples.

(** X8 on the sample providers: the one that the constructor left
    detached, and the one that lost its web socket. *)
Lemma attach_of_the_detached_provider :
  emitted attach detached_provider
  = [WsOn "connect"; WsOn "status"; WsOn "open"; WsOn "close";
     WsOn "disconnect"; WsOn "destroy"; WsAttach]
  /\ attach attached_provider = (Normal tt, attached_provider)
  /\ detach socketless_provider = (Throw TypeError, socketless_provider).
Proof.
  destruct (proj1 (attach_is_guarded_and_detach_is_not detached_provider) eq_refl)
    as [_ [_ [_ [Hagain [Hfirst _]]]]].
  destruct (proj2 (attach_is_guarded_and_detach_is_not socketless_provider) eq_refl)
    as [_ Hthrows].
  split; [apply Hfirst; reflexivity | split; [exact Hagain | exact Hthrows]].
Defined.

(** X9 on three configurations: without the [websocketProvider] key, with
    a shared web socket, and with the key holding [undefined]. *)
Lemma the_three_ways_to_construct :
  _isAttached (this picky_provider) = true
  /\ _isAttached (this detached_provider) = false
  /\ onLocalUpdate [x07] detached_provider = (Normal tt, detached_provider)
  /\ fst (new_LoroProvider undefined_socket_config boot) = Throw TypeError
  /\ active 1 (snd (new_LoroProvider undefined_socket_config boot)) = true.
Proof.
  destruct (constructor_attaches_when_it_owns_the_socket own_config boot [x07])
    as [Hown _].
  destruct (constructor_attaches_when_it_owns_the_socket shared_config boot [x07])
    as [_ [Hshared _]].
  destruct (constructor_attaches_when_it_owns_the_socket
              undefined_socket_config boot [x07])
    as [_ [_ Hundefined]].
  destruct (Hown eq_refl) as [_ [_ [_ [Hon _]]]].
  destruct (Hshared (SharedWebsocket 0) eq_refl) as [_ [_ [_ [Hoff [_ [Hdrop _]]]]]].
  destruct (Hundefined eq_refl)
    as [Hthrows [_ [_ [_ [_ [_ [_ [_ [_ [_ Hactive]]]]]]]]]].
  split; [exact Hon | split; [exact Hoff | split; [exact Hdrop|]]].
  split; [exact Hthrows | apply Hactive; reflexivity].
Defined.

(** X10 on a configuration with a negative interval, and on one with
    [NaN]. *)
Lemma negative_interval_is_registered :
  intervals_set (emitted (new_LoroProvider own_config) boot)
  = [(1%positive, integer (-5))]
  /\ intervals_set (emitted (new_LoroProvider nan_config) boot) = [].
Proof.
  destruct (timer_is_started_for_truthy_numbers own_config boot) as [Hnumber _].
  destruct (Hnumber (integer (-5)) eq_refl) as [Htruthy _].
  destruct (Htruthy eq_refl) as [id [Hcalls [Hhandle _]]].
  destruct (timer_is_started_for_truthy_numbers nan_config boot) as [Hnan _].
  destruct (Hnan NaN eq_refl) as [_ Hfalsy].
  destruct (Hfalsy eq_refl) as [Hnone _].
  split; [|exact Hnone].
  rewrite Hcalls. inversion Hhandle. reflexivity.
Defined.

(** X11 on the provider that manages its web socket: construct, then
    destroy. *)
Lemma construct_then_destroy :
  emitted destroy picky_provider
  = [Emit "destroy"; ClearInterval 1;
     WsOff "connect"; WsOff "status"; WsOff "open"; WsOff "close";
     WsOff "disconnect"; WsOff "destroy"; WsDetach]
  /\ active 1 (snd (destroy picky_provider)) = false.
Proof.
  destruct (destroy_releases_what_the_constructor_acquired own_config boot)
    as [_ [Hinactive [_ [_ [_ [_ Hreturned]]]]]].
  destruct (Hreturned eq_refl) as [_ [_ Hlog]].
  split; [exact Hlog|].
  apply Hinactive. left. reflexivity.
Defined.

(** X12 on the sample providers. *)
Lemma tick_after_destroy :
  tick 1 (snd (destroy attached_provider))
  = (Normal tt, snd (destroy attached_provider))
  /\ forceSync (snd (destroy attached_provider))
     = (Normal tt, snd (destroy attached_provider))
  /\ _isAttached (this (snd (destroy socketless_provider))) = true.
Proof.
  destruct (destroyed_provider_is_silent attached_provider [x07])
    as [Htick [Hsilent _]].
  destruct (destroyed_provider_is_silent socketless_provider [x07])
    as [_ [_ Hstays]].
  destruct (Htick 1%positive eq_refl) as [_ Hidle].
  destruct (Hsilent eq_refl) as [_ [_ [_ [Hsync _]]]].
  destruct (Hstays eq_refl) as [_ Hflag].
  split; [exact Hidle | split; [exact Hsync|]].
  rewrite Hflag. reflexivity.
Defined.

(** X13 on a batch whose second update is rejected. *)
Lemma batch_with_a_rejected_update :
  imports (emitted (onMessage
             [x01; x64; x0b; x03; x01; x05; x00; x01; x06])
           picky_provider)
  = [[x05]; []].
Proof.
  refine (proj2 (sync_batch_stops_at_a_failed_import picky_provider
                   (d := picky_doc)
                   (import := fun _ update =>
                      match update with
                      | [] => Throw (ForeignError "decode error")
                      | _ => Normal tt
                      end)
                   "d" [[x05]] [[x06]] [] (e := ForeignError "decode error")
                   _ _ _ _ _ _)).
  - discriminate.
  - discriminate.
  - reflexivity.
  - reflexivity.
  - intros past v [<-|[]]. reflexivity.
  - reflexivity.
Defined.


(** X15 on the sample provider. *)
Lemma update_and_ephemeral_frame :
  imports (emitted (onMessage [x01; x64; x09; x01; x05]) attached_provider)
  = [[x05]]
  /\ applies (emitted (onMessage [x01; x64; x0c; x01; x05]) attached_provider)
     = [[x05]].
Proof.
  destruct (frames_reach_their_own_target attached_provider "d" [x05] [])
    as [Himports [_ [_ [Happlies _]]]]; try discriminate.
  split; [exact Himports | exact Happlies].
Defined.

(** X16 on a frame for another document. *)
Lemma frame_for_another_document :
  imports (emitted (onMessage [x01; x65; x09; x01; x05]) attached_provider)
  = [[x05]].
Proof.
  destruct (inbound_document_name_is_not_checked attached_provider "d" "e" [])
    as [_ Hother].
  apply (Hother [x05]). discriminate.
Defined.

(** X17 and X18 between two sample providers. *)
Lemma update_between_two_providers :
  exists frame,
    frames (emitted (onLocalUpdate [x07]) picky_provider) = [frame]
    /\ imports (emitted (onMessage frame) attached_provider) = [[x07]].
Proof.
  destruct (local_update_reaches_the_remote_doc picky_provider attached_provider
              [x07] (d := client_doc) (import := fun _ _ => Normal tt))
    as [frame [Hsent [_ Himported]]];
    try reflexivity; try discriminate.
  exists frame. split; assumption.
Defined.

Lemma ephemeral_update_between_two_providers :
  exists frame,
    frames (emitted (onLocalEphemeralUpdate [x07]) picky_provider) = [frame]
    /\ applies (emitted (onMessage frame) attached_provider) = [[x07]].
Proof.
  destruct (local_ephemeral_update_reaches_the_remote_store
              picky_provider attached_provider
              [x07] (s := client_store) (apply := fun _ _ => Normal tt))
    as [frame [Hsent [_ [Happlied _]]]];
    try reflexivity; try discriminate.
  exists frame. split; assumption.
Defined.

(** X19 on the sample tags. *)
Lemma update_frame_is_no_ephemeral_frame :
  toUint8Array (LoroUpdateMessage "d" [x07])
  <> toUint8Array (LoroEphemeralMessage "d" [x07]).
Proof.
  destruct (frame_determines_its_message "d" "d" [x07] [x07] None None)
    as [_ [_ [_ [Hkinds _]]]].
  apply Hkinds. discriminate.
Defined.

End LoroProviderMore.

(* ===================================================================== *)
(** * Cursors                                                             *)
(* ===================================================================== *)

Module CursorFacts.
Import Cursor.

Lemma same_peer_refl (a : option Position) : same_peer a a = true.
Proof. destruct a; simpl; [apply String.eqb_refl | reflexivity]. Qed.

Lemma same_counter_refl (a : option Position) : same_counter a a = true.
Proof. destruct a; simpl; [apply Z.eqb_refl | reflexivity]. Qed.

(** X21: [cursorEq] is an equivalence on optional cursors.  Two absent
    cursors are equal and an absent cursor equals no present one; on
    present cursors [cursorEq] is reflexive, symmetric and transitive, and
    it holds exactly when the two have the same container and either both
    no position or positions with the same peer and counter. *)
Theorem cursorEq_is_an_equivalence :
  cursorEq None None = true
  /\ (forall a, cursorEq (Some a) None = false /\ cursorEq None (Some a) = false)
  /\ (forall a, cursorEq a a = true)
  /\ (forall a b, cursorEq a b = cursorEq b a)
  /\ (forall a b c,
        cursorEq a b = true -> cursorEq b c = true -> cursorEq a c = true)
  /\ (forall a b,
        cursorEq (Some a) (Some b) = true
        <-> containerId a = containerId b
            /\ match pos a, pos b with
               | Some p, Some q => peer p = peer q /\ counter p = counter q
               | None, None => True
               | _, _ => False
               end).
Proof.
  assert (Hiff : forall a b,
            cursorEq (Some a) (Some b) = true
            <-> containerId a = containerId b
                /\ match pos a, pos b with
                   | Some p, Some q => peer p = peer q /\ counter p = counter q
                   | None, None => True
                   | _, _ => False
                   end).
  { intros a b. simpl. rewrite !andb_true_iff, String.eqb_eq.
    destruct (pos a) as [p|], (pos b) as [q|]; simpl;
      rewrite ?String.eqb_eq, ?Z.eqb_eq; intuition discriminate. }
  split; [reflexivity|]. split; [intros a; split; reflexivity|].
  split; [|split; [|split; [|exact Hiff]]].
  - intros [a|]; [|reflexivity]. apply Hiff. split; [reflexivity|].
    destruct (pos a); auto.
  - intros [a|] [b|]; try reflexivity.
    destruct (cursorEq (Some a) (Some b)) eqn:E.
    + symmetry. apply Hiff. apply Hiff in E. destruct E as [Hc Hp].
      split; [congruence|].
      destruct (pos a), (pos b); intuition congruence.
    + destruct (cursorEq (Some b) (Some a)) eqn:F; [|reflexivity].
      rewrite <- E. apply Hiff. apply Hiff in F. destruct F as [Hc Hp].
      split; [congruence|].
      destruct (pos a), (pos b); intuition congruence.
  - intros [a|] [b|] [c|]; try discriminate; try reflexivity.
    intros E F. apply Hiff in E. apply Hiff in F. apply Hiff.
    destruct E as [Ec Ep], F as [Fc Fp]. split; [congruence|].
    destruct (pos a), (pos b), (pos c); intuition congruence.
Qed.

Import Samples.

(** X21 on the sample cursors. *)
Lemma cursors_at_the_same_place :
  cursorEq (Some cursor_at_3) (Some cursor_at_3) = true
  /\ cursorEq (Some cursor_at_3) (Some cursor_without_position) = false.
Proof.
  destruct cursorEq_is_an_equivalence as [_ [_ [Hrefl [_ [Htrans _]]]]].
  split.
  - apply (Htrans (Some cursor_at_3) (Some cursor_at_3) (Some cursor_at_3));
      apply Hrefl.
  - reflexivity.
Defined.

End CursorFacts.

(* ===================================================================== *)
(** * From the server to a provider                                       *)
(* ===================================================================== *)

Module EndToEnd.

Section WithEngine.
Context {R VV : Type} `{Document.LoroDocLike R VV} `{Truthy VV} `{MessageType.Table}.

(** X22: what the server relays, the providers apply.  Every frame that
    [handleLoroUpdate(u, origin)] hands to a connection makes the
    [onMessage] of a provider whose doc has [import] call [doc.import]
    exactly once, with [u]; every frame that [broadcastLoroEphemeral(u,
    origin)] hands to a connection makes a provider whose store has [apply]
    call [ephemeralStore.apply] exactly once, with [u], and import
    nothing. *)
Theorem relayed_frames_are_applied
    (server : Document.Heap R) (client : LoroProvider.Heap)
    (u : bytes) (origin : option Document.Connection)
    (c : Document.Connection) (frame : bytes) :
  MessageType.LoroUpdate <> MessageType.Auth ->
  MessageType.LoroEphemeral <> MessageType.Auth ->
  MessageType.LoroEphemeral <> MessageType.LoroUpdate ->
  MessageType.LoroEphemeral <> MessageType.LoroSyncBatch ->
  (forall d import,
      LoroProvider.doc (LoroProvider.configuration (LoroProvider.this client))
      = Some d ->
      LoroProvider.doc_import d = Some import ->
      In (c, frame)
        (Document.sends
           (Document.emitted (Document.handleLoroUpdate u origin) server)) ->
      LoroProvider.imports
        (LoroProvider.emitted (LoroProvider.onMessage frame) client) = [u])
  /\ (forall s apply,
      LoroProvider.ephemeralStore
        (LoroProvider.configuration (LoroProvider.this client)) = Some s ->
      LoroProvider.store_apply s = Some apply ->
      In (c, frame)
        (Document.sends
           (Document.emitted (Document.broadcastLoroEphemeral u origin) server)) ->
      LoroProvider.applies
        (LoroProvider.emitted (LoroProvider.onMessage frame) client) = [u]
      /\ LoroProvider.imports
           (LoroProvider.emitted (LoroProvider.onMessage frame) client) = []).
Proof.
  intros Hua Hea Heu Heb. split.
  - intros d import Hd Hi Hin.
    rewrite DocumentFacts.handleLoroUpdate_sends in Hin.
    apply in_map_iff in Hin. destruct Hin as [x [Hx _]].
    inversion Hx; subst. unfold Document.writeLoroUpdate.
    pose proof (LoroProviderMore.onMessage_update client
                  (Document.name (Document.this server)) u [] Hua) as Hu.
    rewrite app_nil_r, Hd, Hi in Hu.
    erewrite LoroProviderFacts.emitted_logged by exact Hu. reflexivity.
  - intros s apply Hs Ha Hin.
    rewrite DocumentFacts.broadcastLoroEphemeral_sends in Hin.
    apply in_map_iff in Hin. destruct Hin as [x [Hx _]].
    inversion Hx; subst. unfold Document.writeLoroEphemeral.
    pose proof (LoroProviderMore.onMessage_ephemeral client
                  (Document.name (Document.this server)) u [] Hea Heu Heb) as He.
    rewrite app_nil_r, Hs, Ha in He.
    split; erewrite LoroProviderFacts.emitted_logged by exact He; reflexivity.
Qed.

End WithEngine.

Import Samples.

(** X22 on the sample room and the sample provider: what [bob] is sent. *)
Lemma bob_imports_the_update_of_alice :
  LoroProvider.imports
    (LoroProvider.emitted
       (LoroProvider.onMessage (Document.writeLoroUpdate "d" [x07]))
       attached_provider)
  = [[x07]].
Proof.
  destruct (relayed_frames_are_applied room attached_provider [x07] (Some alice)
              bob (Document.writeLoroUpdate "d" [x07]))
    as [Hupdate _]; try discriminate.
  apply (Hupdate client_doc (fun _ _ => Normal tt)); try reflexivity.
  simpl. auto.
Defined.

End EndToEnd.
